(** * ESAPListen web client: a shallow embedding of the read-side logic

    The repository under study is the Next.js front end of ESAPListen.  The
    pages read meeting records served by the backend, normalise legacy field
    names and urgency values at display time, drive the upload / polling /
    calendar-sync handlers and keep local React state in step with the server.

    Part I transcribes the relevant TypeScript functions, page by page, as
    executable Rocq definitions.  Part II states and proves the properties. *)

From Stdlib Require Import ZArith NArith Lia Sorted Ascii String.
From stdpp Require Import gmap strings list sorting pretty.

Local Open Scope string_scope.

(* ===================================================================== *)
(** * Part I.  The embedding                                              *)
(* ===================================================================== *)

(** ** JavaScript values as they occur in the JSON payloads *)

Module JS.

(** A field of a decoded JSON record.  [Undefined] is what reading an absent
    property yields; [Obj] stands for any array or object value, of which the
    pages only ever test truthiness. *)
Inductive val :=
| Undefined
| Null
| Bool (b : bool)
| Num (z : Z)
| Str (s : string)
| Obj.

#[global] Instance val_eq_dec : EqDecision val.
Proof. solve_decision. Defined.

(** ToBoolean. *)
Definition truthy (v : val) : bool :=
  match v with
  | Undefined | Null | Bool false => false
  | Bool true => true
  | Num z => negb (z =? 0)%Z
  | Str s => negb (String.eqb s "")
  | Obj => true
  end.

(** [a || b]. *)
Definition or (a b : val) : val := if truthy a then a else b.

(** [v === 'lit'] for a string literal. *)
Definition eqs (v : val) (lit : string) : bool :=
  match v with
  | Str s => String.eqb s lit
  | _ => false
  end.

(** [v === n] for a number. *)
Definition eqn (v : val) (n : Z) : bool :=
  match v with
  | Num z => (z =? n)%Z
  | _ => false
  end.

(** [!v]. *)
Definition not (v : val) : bool := negb (truthy v).

(** Property read on a decoded object: absent keys read as [undefined]. *)
Definition get (d : gmap string val) (k : string) : val :=
  default Undefined (d !! k).

(** A [Date]: [None] is the Invalid Date, [Some t] a time value in
    milliseconds. *)
Definition Date := option Z.

(** [new Date(t)] for a time value: out of the representable range the
    result is the Invalid Date. *)
Definition Date_of_time (t : Z) : Date :=
  if (Z.abs t <=? 8640000000000000)%Z then Some t else None.

(** [new Date(d.getTime() + ms)]. *)
Definition Date_plus (d : Date) (ms : Z) : Date :=
  match d with
  | Some t => Date_of_time (t + ms)
  | None => None
  end.

(** [isValid] of date-fns on a [Date]. *)
Definition isValid (d : Date) : bool :=
  match d with Some _ => true | None => false end.

(** ASCII [toLowerCase]: the model lower-cases the letters A-Z and leaves
    every other byte alone. *)
Definition lower_ascii (c : ascii) : ascii :=
  let n := nat_of_ascii c in
  if (65 <=? n)%nat && (n <=? 90)%nat then ascii_of_nat (n + 32) else c.

Fixpoint toLowerCase (s : string) : string :=
  match s with
  | EmptyString => EmptyString
  | String c s' => String (lower_ascii c) (toLowerCase s')
  end.

Definition upper_ascii (c : ascii) : ascii :=
  let n := nat_of_ascii c in
  if (97 <=? n)%nat && (n <=? 122)%nat then ascii_of_nat (n - 32) else c.

Fixpoint toUpperCase (s : string) : string :=
  match s with
  | EmptyString => EmptyString
  | String c s' => String (upper_ascii c) (toUpperCase s')
  end.

(** [s.includes(kw)]. *)
Fixpoint includes (s kw : string) : bool :=
  String.prefix kw s ||
  match s with
  | EmptyString => false
  | String _ s' => includes s' kw
  end.

(** [Array.prototype.slice(start, end)]: a negative index counts from the
    end, and both indices are clamped to the array. *)
Definition slice {A} (l : list A) (start end_ : Z) : list A :=
  let len := Z.of_nat (length l) in
  let k := if (start <? 0)%Z then Z.max (len + start) 0 else Z.min start len in
  let final := if (end_ <? 0)%Z then Z.max (len + end_) 0 else Z.min end_ len in
  take (Z.to_nat (final - k)) (drop (Z.to_nat k) l).

(** [Math.ceil(n / d)] on integers; the quotient by zero is no integer
    ([None] stands for Infinity and NaN). *)
Definition ceil_div (n d : Z) : option Z :=
  if (d =? 0)%Z then None else Some (- ((- n) / d))%Z.

(** [s.substring(n)]. *)
Fixpoint string_drop (n : nat) (s : string) : string :=
  match n, s with
  | O, _ => s
  | S n', String _ s' => string_drop n' s'
  | S _, EmptyString => EmptyString
  end.

(** [s.replace(pat, rep)] for a string pattern: the first occurrence only. *)
Fixpoint replace_first (s pat rep : string) : string :=
  if String.prefix pat s then rep +:+ string_drop (String.length pat) s
  else match s with
       | EmptyString => EmptyString
       | String c s' => String c (replace_first s' pat rep)
       end.

(** The value of a digit in the given radix (10 or 16). *)
Definition digit_value (radix : Z) (c : ascii) : option Z :=
  let n := Z.of_nat (nat_of_ascii c) in
  let v := if (48 <=? n)%Z && (n <=? 57)%Z then Some (n - 48)%Z
           else if (97 <=? n)%Z && (n <=? 122)%Z then Some (n - 87)%Z
           else if (65 <=? n)%Z && (n <=? 90)%Z then Some (n - 55)%Z
           else None in
  match v with
  | Some d => if (d <? radix)%Z then Some d else None
  | None => None
  end.

(** The longest run of digits at the front of [s], read in the radix;
    [acc] is [None] as long as no digit has been read. *)
Fixpoint parse_digits (radix : Z) (acc : option Z) (s : string) : option Z :=
  match s with
  | EmptyString => acc
  | String c s' =>
    match digit_value radix c with
    | Some d => parse_digits radix (Some (default 0 acc * radix + d)%Z) s'
    | None => acc
    end
  end.

Fixpoint skip_space (s : string) : string :=
  match s with
  | String c s' => if Ascii.is_space c then skip_space s' else s
  | EmptyString => EmptyString
  end.

(** The part of [parseInt] that follows the sign: the prefix 0x or 0X selects
    radix 16, then the digits are read. *)
Definition parse_magnitude (s : string) : option Z :=
  let '(radix, s) :=
    if String.prefix "0x" s || String.prefix "0X" s
    then (16%Z, string_drop 2 s) else (10%Z, s) in
  parse_digits radix None s.

(** [parseInt(s)]: leading white space, a sign, then the magnitude; [None] is
    NaN.  The value is computed exactly, and white space is the ASCII one. *)
Definition parseInt (s : string) : option Z :=
  let s := skip_space s in
  let '(sign, s) :=
    match s with
    | String "-" s' => ((-1)%Z, s')
    | String "+" s' => (1%Z, s')
    | _ => (1%Z, s)
    end in
  Z.mul sign <$> parse_magnitude s.

End JS.

Notation "a '|||' b" := (JS.or a b) (at level 50, left associativity).
Notation "v '===' s" := (JS.eqs v s) (at level 55, no associativity).
Notation "d '.[' k ']'" := (JS.get d k) (at level 1, format "d .[ k ]").

Abbreviation obj := (gmap string JS.val).

(** Console output of a page, kept as the channel and the fixed part of the
    message. *)
Inductive console :=
| console_log (msg : string)
| console_warn (msg : string)
| console_error (msg : string).

(** ** lib/urgency-detector: keyword detection on a title *)

Module UrgencyDetector.

Inductive Level := high | medium | low.

#[global] Instance Level_eq_dec : EqDecision Level.
Proof. solve_decision. Defined.

Record UrgencyResult := {
  isUrgent : bool;
  level : Level;
  keywords : list string
}.

Definition URGENT_KEYWORDS_high : list string :=
  ["urgent"; "asap"; "critical"; "emergency"; "immediately"; "now"; "today"].
Definition URGENT_KEYWORDS_medium : list string :=
  ["important"; "priority"; "soon"; "needed"; "required"; "deadline"].
Definition URGENT_KEYWORDS_low : list string :=
  ["fyi"; "info"; "note"; "optional"].

(** One pass of [for (const keyword of ...) if (lowerText.includes(keyword))
    { foundKeywords.push(keyword); level = l }]. *)
Definition scan (lowerText : string) (l : Level) (kws : list string)
    (st : list string * Level) : list string * Level :=
  fold_left
    (fun st keyword =>
       if JS.includes lowerText keyword then ((st.1 ++ [keyword])%list, l) else st)
    kws st.

(** [detectUrgency(text)] on a string. *)
Definition detectUrgency_str (text : string) : UrgencyResult :=
  if String.eqb text "" then
    {| isUrgent := false; level := low; keywords := [] |}
  else
    let lowerText := JS.toLowerCase text in
    let st1 := scan lowerText high URGENT_KEYWORDS_high ([], low) in
    let st2 :=
      if bool_decide (st1.2 = high) then st1
      else scan lowerText medium URGENT_KEYWORDS_medium st1 in
    {| isUrgent := bool_decide (st2.2 = high) || bool_decide (st2.2 = medium);
       level := st2.2;
       keywords := st2.1 |}.

(** [detectUrgency(text)] on whatever the caller passes: a falsy argument
    takes the early return, a truthy value that is not a string has no
    [toLowerCase] and the call throws ([None]). *)
Definition detectUrgency (text : JS.val) : option UrgencyResult :=
  if JS.not text then
    Some {| isUrgent := false; level := low; keywords := [] |}
  else
    match text with
    | JS.Str s => Some (detectUrgency_str s)
    | _ => None
    end.

End UrgencyDetector.

(** ** The display-time urgency mapping, as each page writes it out *)

(** Every list page repeats the same three lines

      const rawUrgency = x.urgency || 'no';
      const urgency = (rawUrgency === 'high' || rawUrgency === 'medium'
                       || rawUrgency === 'yes') ? 'yes' : 'no';
      const isUrgent = urgency === 'yes';

    The transcription below is instantiated once per site. *)
Module UrgencyAt.

Definition rawUrgency (u : JS.val) : JS.val := u ||| JS.Str "no".

Definition urgency (u : JS.val) : string :=
  let rawUrgency := rawUrgency u in
  if (rawUrgency === "high") || (rawUrgency === "medium") || (rawUrgency === "yes")
  then "yes" else "no".

Definition isUrgent (u : JS.val) : bool := String.eqb (urgency u) "yes".

Definition urgencyLevel (u : JS.val) : UrgencyDetector.Level :=
  if String.eqb (urgency u) "yes" then UrgencyDetector.high else UrgencyDetector.low.

End UrgencyAt.

(** ** Records served by [meetingsAPI.getAllMeetings] *)

(** A decoded JSON value seen as a record: an object with its fields, or any
    other value. *)
Inductive Data :=
| DObj (d : obj)
| DPrim (v : JS.val).

(** The fields of a decoded value once a first property read has succeeded:
    reading a property of [undefined] or [null] throws a TypeError ([None]);
    any other non-object has no own fields of interest. *)
Definition Data_fields (x : Data) : option obj :=
  match x with
  | DObj d => Some d
  | DPrim JS.Undefined | DPrim JS.Null => None
  | DPrim _ => Some ∅
  end.

(** [event_data] and [final_summary] arrive either as a JSON string still to
    be parsed or as an already decoded value. *)
Inductive RawData :=
| RawString (s : string)
| RawValue (x : Data).

Record EventItem := {
  id : Z;
  event_type : string;
  event_data : RawData
}.

(** [events] is [None] when the property is missing or not an array. *)
Record Meeting := {
  job_id : string;
  created_at : JS.val;
  final_summary : RawData;
  events : option (list EventItem)
}.

(** Library functions the pages call.  They are not part of the repository and
    are taken as parameters: [JSON.parse] ([None] when it throws), date-fns
    [parseISO] and the [Date] constructor applied to a JSON value. *)
Record Lib := {
  JSON_parse : string -> option Data;
  parseISO : JS.val -> JS.Date;
  newDate : JS.val -> JS.Date
}.

(** [typeof x === 'string' ? JSON.parse(x) : x]. *)
Definition decode (L : Lib) (r : RawData) : option Data :=
  match r with
  | RawString s => JSON_parse L s
  | RawValue x => Some x
  end.

(** [`prefix-${n}`] for a stored id.  The digits are those of the exact
    integer, which is what a JavaScript number prints for the safe integers
    (up to 2^53 - 1 in absolute value), the ids a JSON payload carries
    exactly; beyond them a number prints rounded, and from 1e21 on in
    exponent form.  What is proved from the text of an id assumes the id
    safe. *)
Definition tagged (prefix : string) (n : Z) : string := prefix +:+ pretty n.

(** What one iteration of a [forEach] body contributes: the records it pushes
    and the console lines it writes. *)
Definition collect {A} (rs : list (list A * list console)) : list A * list console :=
  (concat (map fst rs), concat (map snd rs)).

(** The double loop [meetings.forEach(m => m.events.forEach(body))], guarded by
    [meeting.events && Array.isArray(meeting.events)]. *)
Definition forEach_event {A} (body : Meeting -> EventItem -> list A * list console)
    (meetings : list Meeting) : list A * list console :=
  collect (flat_map (fun meeting =>
                       match events meeting with
                       | Some evs => map (body meeting) evs
                       | None => []
                       end) meetings).

(** ** app/calendar/page.tsx *)

Module CalendarPage.

Record CalendarEvent := {
  ce_id : string;
  eventItemId : option Z;
  title : JS.val;
  start : JS.Date;
  end_ : JS.Date;
  description : JS.val;
  location : JS.val;
  attendees : list JS.val;
  meetingId : string;
  type : string;
  synced : bool;
  completed : JS.val;
  urgency : JS.val
}.

Definition DEFAULT_EVENT_DURATION_MS : Z := 60 * 60 * 1000.

Definition warn_missing_date : console :=
  console_warn "[Calendar] Skipping dated_event with missing date field. Available fields:".
Definition warn_invalid_date : console :=
  console_warn "[Calendar] Invalid date for event:".
Definition log_processing : console :=
  console_log "[Calendar] Processing dated_event".
Definition log_created : console :=
  console_log "[Calendar] Created event:".
Definition error_parsing : console :=
  console_error "Error parsing event:".

(** The body of the inner [forEach] of [fetchEvents]. *)
Definition processItem (L : Lib) (meeting : Meeting) (eventItem : EventItem)
    : list CalendarEvent * list console :=
  match decode L (event_data eventItem) with
  | None => ([], [error_parsing])
  | Some eventData =>
    if String.eqb (event_type eventItem) "dated_events" then
      match Data_fields eventData with
      | None => ([], [error_parsing])
      | Some eventData =>
        let dateField := eventData.["date"] in
        if JS.not dateField then ([], [warn_missing_date])
        else
          let eventDate := parseISO L dateField in
          if negb (JS.isValid eventDate) then
            ([], [log_processing; warn_invalid_date])
          else
            let newEvent :=
              {| ce_id := tagged "event-" (id eventItem);
                 eventItemId := Some (id eventItem);
                 title := eventData.["title"] ||| JS.Str "Untitled Event";
                 start := eventDate;
                 end_ := JS.Date_plus eventDate DEFAULT_EVENT_DURATION_MS;
                 description := eventData.["description"] ||| JS.Str "";
                 location := eventData.["location"];
                 attendees := if JS.truthy eventData.["assignee"]
                              then [eventData.["assignee"]] else [];
                 meetingId := job_id meeting;
                 type := "meeting";
                 synced := true;
                 completed := eventData.["completed"] ||| JS.Bool false;
                 urgency := eventData.["urgency"] |} in
            ([newEvent], [log_processing; log_created])
      end
    else ([], [])
  end.

(** [fetchEvents], from the point where the meetings have been received:
    the extracted events handed to [setEvents] and the console output. *)
Definition fetchEvents (L : Lib) (meetings : list Meeting)
    : list CalendarEvent * list console :=
  forEach_event (processItem L) meetings.

(** The urgency shown for an event of the "upcoming" list (lines 444-448). *)
Definition isUrgent (event : CalendarEvent) : bool :=
  UrgencyAt.isUrgent (urgency event).

End CalendarPage.

(** ** app/events/page.tsx *)

Module EventsPage.

Record Event := {
  ev_id : string;
  eventItemId : option Z;
  title : JS.val;
  start : JS.Date;
  end_ : JS.Date;
  description : JS.val;
  location : JS.val;
  attendees : list JS.val;
  meetingId : string;
  type : string;
  synced : bool;
  notificationsEnabled : bool;
  completed : JS.val;
  urgency : JS.val
}.

Definition error_parsing : console := console_error "Error parsing event:".

(** The body of the inner [forEach] of [fetchEvents]: the date is parsed but
    not validated, and an item without a date is passed over without a
    message. *)
Definition processItem (L : Lib) (meeting : Meeting) (eventItem : EventItem)
    : list Event * list console :=
  match decode L (event_data eventItem) with
  | None => ([], [error_parsing])
  | Some eventData =>
    if String.eqb (event_type eventItem) "dated_events" then
      match Data_fields eventData with
      | None => ([], [error_parsing])
      | Some eventData =>
        let dateField := eventData.["date"] in
        if JS.truthy dateField then
          let eventDate := parseISO L dateField in
          ([ {| ev_id := tagged "event-" (id eventItem);
                eventItemId := Some (id eventItem);
                title := eventData.["title"] ||| JS.Str "Untitled Event";
                start := eventDate;
                end_ := JS.Date_plus eventDate (60 * 60 * 1000);
                description := eventData.["description"] ||| JS.Str "";
                location := eventData.["location"];
                attendees := if JS.truthy eventData.["assignee"]
                             then [eventData.["assignee"]] else [];
                meetingId := job_id meeting;
                type := "meeting";
                synced := true;
                notificationsEnabled := true;
                completed := eventData.["completed"] ||| JS.Bool false;
                urgency := eventData.["urgency"] |} ], [])
        else ([], [])
      end
    else ([], [])
  end.

Definition fetchEvents (L : Lib) (meetings : list Meeting)
    : list Event * list console :=
  forEach_event (processItem L) meetings.

(** The urgency shown in the list (lines 426-429). *)
Definition isUrgent (event : Event) : bool := UrgencyAt.isUrgent (urgency event).

(** Requests and notifications issued by the handlers of the page. *)
Inductive effect :=
| api_toggleTaskCompletion (eventId : Z) (completed : bool)
| toast_success (msg : string)
| toast_info (msg : string)
| toast_error (msg : string)
| log (c : console).

(** [{ ...e, completed: newCompletedState }]. *)
Definition with_completed (e : Event) (newCompletedState : bool) : Event :=
  {| ev_id := ev_id e; eventItemId := eventItemId e; title := title e;
     start := start e; end_ := end_ e; description := description e;
     location := location e; attendees := attendees e; meetingId := meetingId e;
     type := type e; synced := synced e;
     notificationsEnabled := notificationsEnabled e;
     completed := JS.Bool newCompletedState; urgency := urgency e |}.

(** [events.map(e => e.id === event.id ? { ...e, completed } : e)]. *)
Definition mark (events : list Event) (target : string) (newCompletedState : bool)
    : list Event :=
  map (fun e => if String.eqb (ev_id e) target
                then with_completed e newCompletedState else e) events.

(** [handleToggleCompletion(event)] run against the list [events] held in
    state.  [api_ok] tells whether the PATCH request resolved; the result is
    the new list and what the handler emitted. *)
Definition handleToggleCompletion (api_ok : bool) (events : list Event) (event : Event)
    : list Event * list effect :=
  match eventItemId event with
  | None => (events, [])
  | Some eventItemId =>
    if (eventItemId =? 0)%Z then (events, [])
    else
      let newCompletedState := JS.not (completed event) in
      let request := api_toggleTaskCompletion eventItemId newCompletedState in
      if api_ok then
        (mark events (ev_id event) newCompletedState,
         [request;
          if newCompletedState then toast_success "Event marked as completed"
          else toast_info "Event marked as incomplete"])
      else
        (events,
         [request;
          log (console_error "Failed to toggle completion:");
          toast_error "Failed to update completion status"])
  end.

(** *** Deleting an event (handleDeleteEvent) *)

Inductive delete_effect :=
| api_deleteEvent (numericId : option Z)
| deleted_toast_success (msg : string)
| deleted_toast_error (msg : string)
| deleted_log (c : console).

(** [handleDeleteEvent(eventId)].  [confirmed] is the answer to the
    confirmation dialog and [api_ok] tells whether the DELETE request
    resolved; the numeric id is [None] when [parseInt] yields NaN.  The result
    is the new list, the new selected event, and what was emitted. *)
Definition handleDeleteEvent (confirmed api_ok : bool) (events : list Event)
    (selectedEvent : option Event) (eventId : string)
    : list Event * option Event * list delete_effect :=
  if confirmed then
    let numericId := JS.parseInt (JS.replace_first eventId "event-" "") in
    if api_ok then
      (filter (fun e => ev_id e <> eventId) events, None,
       [api_deleteEvent numericId; deleted_toast_success "Event deleted successfully"])
    else
      (events, selectedEvent,
       [api_deleteEvent numericId;
        deleted_log (console_error "Failed to delete event:");
        deleted_toast_error "Failed to delete event"])
  else (events, selectedEvent, []).

(** *** Switching notifications (handleToggleNotification) *)

Definition with_notifications (e : Event) (b : bool) : Event :=
  {| ev_id := ev_id e; eventItemId := eventItemId e; title := title e;
     start := start e; end_ := end_ e; description := description e;
     location := location e; attendees := attendees e; meetingId := meetingId e;
     type := type e; synced := synced e;
     notificationsEnabled := b;
     completed := completed e; urgency := urgency e |}.

(** [handleToggleNotification(eventId)]: the new list and the toast shown. *)
Definition handleToggleNotification (events : list Event) (eventId : string)
    : list Event * effect :=
  let updatedEvents :=
    map (fun e => if String.eqb (ev_id e) eventId
                  then with_notifications e (negb (notificationsEnabled e)) else e)
        events in
  let event := List.find (fun e => String.eqb (ev_id e) eventId) updatedEvents in
  (updatedEvents,
   match event with
   | Some e => if notificationsEnabled e
               then toast_success "Notifications enabled for this event"
               else toast_info "Notifications disabled for this event"
   | None => toast_info "Notifications disabled for this event"
   end).

End EventsPage.

(** ** The notes page *)

Module NotesPage.

Record Note := {
  note_id : string;
  title : JS.val;
  description : JS.val;
  category : string;
  date : JS.val;
  meetingId : string;
  meetingTitle : JS.val;
  type : JS.val;
  completed : JS.val;
  urgency : JS.val
}.

(** [x?.toLowerCase() || ''] on a title: [None] when the value is neither
    nullish nor a string, in which case the call throws.  [JS.toLowerCase]
    is exact on ASCII text; what is proved from the key of a title assumes
    the titles to be ASCII text. *)
Definition title_key (t : JS.val) : option string :=
  match t with
  | JS.Undefined | JS.Null => Some ""
  | JS.Str s => Some (JS.toLowerCase s)
  | _ => None
  end.

(** First pass over a meeting's events: the lower-cased titles of its
    completed dated events.  Errors are swallowed in this pass. *)
Definition completed_title (L : Lib) (eventItem : EventItem) : gset string :=
  match decode L (event_data eventItem) with
  | None => ∅
  | Some eventData =>
    if String.eqb (event_type eventItem) "dated_events" then
      match Data_fields eventData with
      | None => ∅
      | Some eventData =>
        if JS.truthy eventData.["completed"] then
          match title_key eventData.["title"] with
          | Some k => {[ k ]}
          | None => ∅
          end
        else ∅
      end
    else ∅
  end.

Definition completedTasks (L : Lib) (evs : list EventItem) : gset string :=
  ⋃ (map (completed_title L) evs).

(** Backend category to page category. *)
Definition map_category (backendCategory : JS.val) : option string :=
  if JS.truthy backendCategory then
    match backendCategory with
    | JS.Str c =>
      let categoryUpper := JS.toUpperCase c in
      Some (if String.eqb categoryUpper "DECISION" || JS.includes categoryUpper "DECISION"
            then "decision"
            else if String.eqb categoryUpper "BUDGET" || JS.includes categoryUpper "BUDGET"
            then "budget"
            else if String.eqb categoryUpper "ACTION" || JS.includes categoryUpper "ACTION"
            then "action"
            else "general")
    | _ => None
    end
  else Some "general".

Definition error_parsing : console := console_error "Error parsing note:".
Definition error_processing : console := console_error "Error processing meeting notes:".
Definition log_processing : console := console_log "[Notes] Processing note with data:".
Definition log_created : console := console_log "[Notes] Created note with category:".

(** The body of the second inner [forEach] of [fetchNotes]; [finalSummary] is
    the decoded summary of the meeting. *)
Definition processItem (L : Lib) (meeting : Meeting) (finalSummary : Data)
    (done : gset string) (eventItem : EventItem) : list Note * list console :=
  match decode L (event_data eventItem) with
  | None => ([], [error_parsing])
  | Some eventData =>
    if String.eqb (event_type eventItem) "notes" then
      match Data_fields eventData, Data_fields finalSummary with
      | Some eventData, Some finalSummary =>
        match map_category eventData.["category"], title_key eventData.["title"] with
        | Some category, Some noteTitle =>
          let hasCompletedRelatedTask := bool_decide (noteTitle ∈ done) in
          ([ {| note_id := tagged "note-" (id eventItem);
                title := eventData.["title"] ||| JS.Str "Untitled Note";
                description := eventData.["description"] ||| JS.Str "";
                category := category;
                date := JS.Undefined;
                meetingId := job_id meeting;
                meetingTitle := finalSummary.["title"] ||| JS.Str "Meeting";
                type := eventData.["category"];
                completed := eventData.["completed"] ||| JS.Bool hasCompletedRelatedTask;
                urgency := eventData.["urgency"] |} ],
           [log_processing; log_created])
        | _, _ => ([], [log_processing; error_parsing])
        end
      | _, _ => ([], [log_processing; error_parsing])
      end
    else ([], [])
  end.

(** The body of the outer [forEach]: one meeting. *)
Definition processMeeting (L : Lib) (meeting : Meeting) : list Note * list console :=
  match decode L (final_summary meeting) with
  | None => ([], [error_processing])
  | Some finalSummary =>
    match events meeting with
    | Some evs =>
      collect (map (processItem L meeting finalSummary (completedTasks L evs)) evs)
    | None => ([], [])
    end
  end.

Definition fetchNotes (L : Lib) (meetings : list Meeting) : list Note * list console :=
  collect (map (processMeeting L) meetings).

(** The urgency shown on a note card (lines 389-394). *)
Definition isUrgent (note : Note) : bool := UrgencyAt.isUrgent (urgency note).

End NotesPage.

(** ** app/tasks/page.tsx *)

Module TasksPage.

Record Task := {
  task_id : Z;
  title : JS.val;
  description : JS.val;
  date : JS.Date;
  completed : JS.val;
  type : string;
  category : JS.val;
  meetingId : string;
  urgency : JS.val
}.

Definition error_parsing : console := console_error "Error parsing task:".

(** The record pushed for one item (lines 79-89). *)
Definition task_of (L : Lib) (meeting : Meeting) (eventItem : EventItem)
    (eventData : obj) : Task :=
  let taskDate :=
    if String.eqb (event_type eventItem) "dated_events"
    then newDate L eventData.["date"]
    else newDate L (created_at meeting) in
  {| task_id := id eventItem;
     title := eventData.["title"] ||| JS.Str "Untitled Task";
     description := eventData.["description"] ||| eventData.["details"];
     date := taskDate;
     completed := eventData.["completed"] ||| JS.Bool false;
     type := event_type eventItem;
     category := eventData.["category"] ||| eventData.["note_type"];
     meetingId := job_id meeting;
     urgency := eventData.["urgency"] |}.

Definition processItem (L : Lib) (meeting : Meeting) (eventItem : EventItem)
    : list Task * list console :=
  match decode L (event_data eventItem) with
  | None => ([], [error_parsing])
  | Some eventData =>
    if String.eqb (event_type eventItem) "dated_events"
       || String.eqb (event_type eventItem) "notes" then
      match Data_fields eventData with
      | None => ([], [error_parsing])
      | Some eventData => ([task_of L meeting eventItem eventData], [])
      end
    else ([], [])
  end.

(** The normalised level the sort, the filter and the counters compute from a
    task (lines 101-104, 169-170, 185-186). *)
Definition level (t : Task) : string := UrgencyAt.urgency (urgency t).

(** [urgencyOrder = { yes: 0, no: 1 }]. *)
Definition urgencyOrder (l : string) : Z := if String.eqb l "yes" then 0 else 1.

(** [getTime()], with [None] for NaN. *)
Definition time_diff (a b : JS.Date) : option Z :=
  match a, b with
  | Some x, Some y => Some (x - y)%Z
  | _, _ => None
  end.

(** The comparator of [allTasks.sort] (lines 99-115); [None] is NaN. *)
Definition compareTasks (a b : Task) : option Z :=
  let aLevel := level a in
  let bLevel := level b in
  if negb (String.eqb aLevel bLevel) then
    Some (urgencyOrder aLevel - urgencyOrder bLevel)%Z
  else if negb (bool_decide (completed a = completed b)) then
    Some (if JS.truthy (completed a) then 1 else -1)%Z
  else time_diff (date a) (date b).

(** [Array.prototype.sort] is stable and reads a NaN from the comparator as 0;
    the model inserts each element after the elements it does not precede. *)
Fixpoint insert_sorted {A} (cmp : A -> A -> option Z) (x : A) (l : list A) : list A :=
  match l with
  | [] => [x]
  | y :: l' =>
    if (default 0 (cmp x y) <? 0)%Z then x :: y :: l'
    else y :: insert_sorted cmp x l'
  end.

Definition sort {A} (cmp : A -> A -> option Z) (l : list A) : list A :=
  fold_left (fun acc x => insert_sorted cmp x acc) l [].

(** [fetchTasks], from the point where the meetings have been received. *)
Definition fetchTasks (L : Lib) (meetings : list Meeting) : list Task * list console :=
  let r := forEach_event (processItem L) meetings in
  (sort compareTasks r.1, r.2).

(** The urgency filter of the list (lines 168-171). *)
Definition matches_filter (filterUrgency : string) (task : Task) : bool :=
  if String.eqb filterUrgency "all" then true
  else String.eqb (level task) filterUrgency.

(** The "urgent" counter (lines 184-188). *)
Definition urgent_count (tasks : list Task) : nat :=
  length (filter (fun t => String.eqb (level t) "yes" && JS.not (completed t) = true) tasks).

(** The urgency shown on a row (lines 328-331). *)
Definition isUrgent (task : Task) : bool := UrgencyAt.isUrgent (urgency task).

(** *** Marking a task (handleToggleTask, lines 126-144) *)

Inductive effect :=
| api_toggleTaskCompletion (taskId : Z) (completed : bool)
| toast_success (msg : string)
| toast_error (msg : string)
| log (c : console).

(** [{ ...task, completed }]. *)
Definition with_completed (t : Task) (completed_ : bool) : Task :=
  {| task_id := task_id t; title := title t; description := description t;
     date := date t;
     completed := JS.Bool completed_;
     type := type t; category := category t; meetingId := meetingId t;
     urgency := urgency t |}.


(** [tasks.map(task => task.id === taskId ? { ...task, completed } : task)]. *)
Definition mark (tasks : list Task) (taskId : Z) (completed_ : bool) : list Task :=
  map (fun task => if (task_id task =? taskId)%Z then with_completed task completed_
                   else task) tasks.


End TasksPage.

(** ** The dashboard page: upcoming events, upload, status polling *)

Module DashboardPage.

(** *** Upcoming events (fetchUpcomingEvents and lines 695-700) *)

Record Upcoming := {
  up_id : Z;
  title : JS.val;
  date : JS.Date;
  assignee : JS.val;
  description : JS.val;
  urgency : JS.val;
  completed : JS.val;
  meetingId : string
}.

Definition error_parsing : console := console_error "Error parsing event:".

Definition processItem (L : Lib) (now : Z) (meeting : Meeting) (eventItem : EventItem)
    : list Upcoming * list console :=
  match decode L (event_data eventItem) with
  | None => ([], [error_parsing])
  | Some eventData =>
    if String.eqb (event_type eventItem) "dated_events" then
      match Data_fields eventData with
      | None => ([], [error_parsing])
      | Some eventData =>
        let eventDate := newDate L eventData.["date"] in
        match eventDate with
        | Some t =>
          if (now <? t)%Z then
            ([ {| up_id := id eventItem;
                  title := eventData.["title"] ||| JS.Str "Untitled Event";
                  date := eventDate;
                  assignee := eventData.["assignee"];
                  description := eventData.["description"] ||| JS.Str "";
                  urgency := eventData.["urgency"] ||| JS.Str "no";
                  completed := eventData.["completed"] ||| JS.Bool false;
                  meetingId := job_id meeting |} ], [])
          else ([], [])
        | None => ([], [])
        end
      end
    else ([], [])
  end.

Definition fetchUpcomingEvents (L : Lib) (now : Z) (meetings : list Meeting)
    : list Upcoming * list console :=
  let r := forEach_event (processItem L now) meetings in
  (take 5 (TasksPage.sort (fun a b => TasksPage.time_diff (date a) (date b)) r.1), r.2).

Definition isUrgent (event : Upcoming) : bool := UrgencyAt.isUrgent (urgency event).

(** *** Submitting audio (handleUpload, uploadRecording) *)

(** [String.prototype.trim] works on UTF-16 code units; [user_input] is kept
    in that form because the white space it strips is not all ASCII. *)
Definition ustring := list N.

(** WhiteSpace and LineTerminator of ECMAScript. *)
Definition is_whitespace (c : N) : bool :=
  ((c =? 9) || (c =? 10) || (c =? 11) || (c =? 12) || (c =? 13) || (c =? 32)
   || (c =? 160) || (c =? 5760) || ((8192 <=? c) && (c <=? 8202))
   || (c =? 8232) || (c =? 8233) || (c =? 8239) || (c =? 8287)
   || (c =? 12288) || (c =? 65279))%N.

Fixpoint trimStart (s : ustring) : ustring :=
  match s with
  | c :: s' => if is_whitespace c then trimStart s' else s
  | [] => []
  end.

Definition trim (s : ustring) : ustring := rev (trimStart (rev (trimStart s))).

(** [!s] for a string. *)
Definition is_empty (s : ustring) : bool :=
  match s with [] => true | _ => false end.

Record OutputFields := {
  transcript : bool;
  summary_english : bool;
  summary_arabic : bool;
  action_items : bool;
  deadlines : bool;
  calendar_sync : bool;
  budget_notes : bool;
  decisions : bool;
  general_notes : bool
}.

Record ProcessingConfig := {
  role : string;
  output_fields : OutputFields;
  user_input : ustring;
  custom_field_only : bool
}.

(** The audio handed to the upload request: the selected file, or the
    recording wrapped as [recording_<now>.webm]. *)
Inductive Audio :=
| selected_file (name : string)
| recording (blob : string) (now : Z).

Inductive effect :=
| alert (msg : string)
| api_uploadAudio (audio : Audio) (config : ProcessingConfig)
| api_getJobStatus (id : string)
| start_polling (id : string)
| clearInterval
| router_push (path : string)
| log (c : console).

Record State := {
  file : option string;
  recordedAudio : option string;
  processing : bool;
  status : string;
  progress : Z;
  jobId : option string
}.

Definition dquote : string := String (ascii_of_nat 34) EmptyString.

Definition guard_message : string :=
  "Please provide a question in the " +:+ dquote +:+ "Additional Analysis" +:+ dquote
  +:+ " field, or uncheck the " +:+ dquote +:+ "Only process additional analysis"
  +:+ dquote +:+ " option.".

Definition set_uploading (st : State) (msg : string) : State :=
  {| file := file st; recordedAudio := recordedAudio st; processing := true;
     status := msg; progress := progress st; jobId := jobId st |}.

Definition set_processing (st : State) (b : bool) : State :=
  {| file := file st; recordedAudio := recordedAudio st; processing := b;
     status := status st; progress := progress st; jobId := jobId st |}.

Definition set_jobId (st : State) (j : string) : State :=
  {| file := file st; recordedAudio := recordedAudio st; processing := processing st;
     status := status st; progress := progress st; jobId := Some j |}.

(** The part shared by both handlers after their guards: the request and what
    follows it.  [upload] is the outcome of [meetingsAPI.uploadAudio]: the job
    id of the response, or [None] when the request fails. *)
Definition submit (upload : option string) (config : ProcessingConfig) (audio : Audio)
    (banner : string) (st : State) : State * list effect :=
  let st := set_uploading st banner in
  let logs := [log (console_log "Uploading with config:");
               log (console_log "Calendar Sync enabled:")] in
  match upload with
  | Some job_id =>
    (set_jobId st job_id,
     logs ++ [api_uploadAudio audio config; start_polling job_id])%list
  | None =>
    (set_processing st false,
     logs ++ [api_uploadAudio audio config;
              log (console_error "Upload failed:");
              alert "Upload failed. Please try again."])%list
  end.

Definition handleUpload (upload : option string) (config : ProcessingConfig) (st : State)
    : State * list effect :=
  match file st with
  | None => (st, [])
  | Some f =>
    if custom_field_only config && is_empty (trim (user_input config)) then
      (st, [alert guard_message])
    else
      submit upload config (selected_file f) "Uploading..." st
  end.

Definition uploadRecording (now : Z) (upload : option string) (config : ProcessingConfig)
    (st : State) : State * list effect :=
  match recordedAudio st with
  | None => (st, [])
  | Some blob =>
    if custom_field_only config && is_empty (trim (user_input config)) then
      (st, [alert guard_message])
    else
      submit upload config (recording blob now) "Uploading recording..." st
  end.

(** A string made of white space only (the empty string included). *)
Definition blank (s : ustring) : Prop := Forall (fun c => is_whitespace c = true) s.

(** No upload request, no start of polling and no status request among the
    effects. *)
Definition quiet (effs : list effect) : Prop :=
  forall e, e ∈ effs ->
    match e with
    | api_uploadAudio _ _ | start_polling _ | api_getJobStatus _ => False
    | _ => True
    end.

End DashboardPage.

(** *** Status polling (pollJobStatus) *)

Module JobPolling.

Import DashboardPage.

Record Stage := {
  stage_status : JS.val;
  stage_progress : JS.val
}.

(** The body of a status response. *)
Record StatusData := {
  sd_status : JS.val;
  overall_progress : Z;
  stages : option (gmap string Stage);
  sd_error : JS.val
}.

(** [stages.<name>?.status === 'in_progress']. *)
Definition in_progress (stages : gmap string Stage) (name : string) : bool :=
  match stages !! name with
  | Some s => stage_status s === "in_progress"
  | None => false
  end.

(** The status line chosen from the stage that is running (each message
    without the emoji that opens it). *)
Definition currentStatus (statusData : StatusData) : string :=
  let stages := default ∅ (stages statusData) in
  if in_progress stages "vad" then "Detecting speech..."
  else if in_progress stages "enhancement" then "Enhancing audio quality..."
  else if in_progress stages "transcription" then "Transcribing audio..."
  else if in_progress stages "diarization" then "Identifying speakers..."
  else if in_progress stages "extraction" then "Extracting key insights..."
  else if in_progress stages "calendar" then "Syncing to calendar..."
  else if sd_status statusData === "completed" then "Complete!"
  else "Processing...".

Definition set_progress_status (st : State) (p : Z) (msg : string) : State :=
  {| file := file st; recordedAudio := recordedAudio st; processing := processing st;
     status := msg; progress := p; jobId := jobId st |}.

(** The body of the interval callback once [getJobStatus] has settled:
    [response] is the status received, or [None] when the request failed.
    The result is the new page state, whether the interval was cleared, and
    what was emitted (the failure alert is kept without the error text that
    is appended to it). *)
Definition on_response (id : string) (response : option StatusData) (st : State)
    : State * bool * list effect :=
  match response with
  | None => (st, false, [log (console_error "Status check failed:")])
  | Some statusData =>
    let st := set_progress_status st (overall_progress statusData)
                                  (currentStatus statusData) in
    if sd_status statusData === "completed" then
      (set_processing st false, true, [clearInterval; router_push ("/meeting/" +:+ id)])
    else if sd_status statusData === "failed" then
      (set_processing st false, true, [clearInterval; alert "Processing failed: "])
    else (st, false, [])
  end.

(** The polling loop as a transition system.  [setInterval] fires every two
    seconds whether or not earlier requests have settled, so several requests
    may be in flight, and they settle in any order. *)
Record Poller := {
  page : State;
  interval_active : bool;
  inflight : list (option StatusData);
  shown : list Z;
  emitted : list effect
}.

Inductive poll_event :=
| tick (answer : option StatusData)
    (** the interval fires and a request is sent; [answer] is what the server
        replies to it *)
| settle (k : nat)
    (** the [k]-th request in flight settles and its callback resumes *).

Definition start (st : State) : Poller :=
  {| page := st; interval_active := true; inflight := []; shown := []; emitted := [] |}.

Definition step (id : string) (p : Poller) (e : poll_event) : Poller :=
  match e with
  | tick answer =>
    if interval_active p then
      {| page := page p; interval_active := true;
         inflight := (inflight p ++ [answer])%list;
         shown := shown p;
         emitted := (emitted p ++ [api_getJobStatus id])%list |}
    else p
  | settle k =>
    match inflight p !! k with
    | None => p
    | Some response =>
      let '(st, cleared, effs) := on_response id response (page p) in
      {| page := st;
         interval_active := interval_active p && negb cleared;
         inflight := delete k (inflight p);
         shown := match response with
                  | Some _ => (shown p ++ [progress st])%list
                  | None => shown p
                  end;
         emitted := (emitted p ++ effs)%list |}
    end
  end.

Definition run (id : string) (p : Poller) (es : list poll_event) : Poller :=
  fold_left (step id) es p.

(** The schedule in which every request settles before the next one is sent. *)
Definition one_at_a_time (answers : list (option StatusData)) : list poll_event :=
  flat_map (fun a => [tick a; settle 0]) answers.

(** The progress values the server reported, in the order the requests were
    sent. *)
Definition observed (es : list poll_event) : list Z :=
  omap (fun e => match e with
                 | tick (Some r) => Some (overall_progress r)
                 | _ => None
                 end) es.

(** A job is not terminal in a response whose status is neither [completed]
    nor [failed]. *)
Definition non_terminal (r : StatusData) : bool :=
  negb (sd_status r === "completed") && negb (sd_status r === "failed").

(** A status response that only carries a progress value, for a job that is
    still processing. *)
Definition processing_at (p : Z) : StatusData :=
  {| sd_status := JS.Str "processing"; overall_progress := p;
     stages := None; sd_error := JS.Undefined |}.

Definition idle : State :=
  {| file := Some "meeting.mp3"; recordedAudio := None; processing := true;
     status := "Uploading..."; progress := 0; jobId := Some "job-1" |}.

(** A request that fails shows nothing; a status that arrives shows its
    progress. *)
Definition reported (a : option StatusData) : option Z := overall_progress <$> a.

Definition all_non_terminal (answers : list (option StatusData)) : Prop :=
  Forall (fun a => match a with Some r => non_terminal r = true | None => True end) answers.

(** The number of status requests among the effects. *)
Definition is_status_request (e : effect) : bool :=
  match e with api_getJobStatus _ => true | _ => false end.

Definition requests (effs : list effect) : nat :=
  length (List.filter is_status_request effs).

(** A status response for a job in the given state. *)
Definition status_of (s : string) (p : Z) : StatusData :=
  {| sd_status := JS.Str s; overall_progress := p;
     stages := None; sd_error := JS.Undefined |}.

End JobPolling.

(** ** The meeting detail page *)

Module MeetingDetailPage.

(** The meeting returned by [getMeetingDetails]: the fields the page uses and
    everything else it carries along. *)
Record MeetingDetails := {
  calendar_synced : JS.val;
  dated_events : option (list obj);
  notes : option (list obj);
  other : obj
}.

Record User := {
  calendar_connected : JS.val
}.

Record State := {
  meeting : option MeetingDetails;
  user : option User;
  syncing : bool
}.

Inductive effect :=
| alert (msg : JS.val)
| api_syncToCalendar (jobId : string)
| api_getMeetingDetails (jobId : string)
| api_toggleTaskCompletion (noteId : Z) (completed : bool)
| router_push (path : string)
| toast_success (msg : string)
| toast_info (msg : string)
| toast_error (msg : string)
| log (c : console).

Definition msg_connect_first : JS.val :=
  JS.Str "Please connect your calendar in Settings first".
Definition msg_already_synced : JS.val :=
  JS.Str "This meeting has already been synced to calendar".
Definition msg_synced : JS.val :=
  JS.Str "Events synced to calendar successfully!".
Definition msg_sync_failed : JS.val :=
  JS.Str "Failed to sync to calendar".

(** Outcome of [meetingsAPI.syncToCalendar]: resolved, or rejected with the
    [detail] of the error response ([undefined] when there is none). *)
Inductive sync_outcome :=
| sync_resolved
| sync_rejected (detail : JS.val).

(** [loadMeeting]: [reload] is the meeting received, or [None] when the
    request fails. *)
Definition loadMeeting (jobId : string) (reload : option MeetingDetails) (st : State)
    : State * list effect :=
  match reload with
  | Some data =>
    ({| meeting := Some data; user := user st; syncing := syncing st |},
     [api_getMeetingDetails jobId])
  | None =>
    (st, [api_getMeetingDetails jobId;
          log (console_error "Failed to load meeting:");
          alert (JS.Str "Meeting not found");
          router_push "/history"])
  end.

(** [user?.calendar_connected] and [meeting?.calendar_synced]. *)
Definition user_connected (st : State) : JS.val :=
  match user st with Some u => calendar_connected u | None => JS.Undefined end.
Definition meeting_synced (st : State) : JS.val :=
  match meeting st with Some m => calendar_synced m | None => JS.Undefined end.

(** [handleSyncCalendar]. *)
Definition handleSyncCalendar (jobId : string) (outcome : sync_outcome)
    (reload : option MeetingDetails) (st : State) : State * list effect :=
  if JS.not (user_connected st) then (st, [alert msg_connect_first])
  else if JS.truthy (meeting_synced st) then (st, [alert msg_already_synced])
  else
    match outcome with
    | sync_resolved =>
      let '(st', effs) := loadMeeting jobId reload st in
      ({| meeting := meeting st'; user := user st'; syncing := false |},
       api_syncToCalendar jobId :: alert msg_synced :: effs)
    | sync_rejected detail =>
      ({| meeting := meeting st; user := user st; syncing := false |},
       [api_syncToCalendar jobId;
        log (console_error "Calendar sync failed:");
        alert (detail ||| msg_sync_failed)])
    end.

(** The number of push requests among the effects. *)
Definition is_push (e : effect) : bool :=
  match e with api_syncToCalendar _ => true | _ => false end.

Definition pushes (effs : list effect) : nat :=
  length (List.filter is_push effs).

(** [{ ...note, completed: newCompletedState }] on a note object. *)
Definition with_completed (note : obj) (newCompletedState : bool) : obj :=
  <[ "completed" := JS.Bool newCompletedState ]> note.

(** The updater passed to [setMeeting]: [None] when [prev.notes] is not an
    array and the call to [map] throws. *)
Definition mark (prev : MeetingDetails) (noteId : Z) (newCompletedState : bool)
    : option MeetingDetails :=
  match notes prev with
  | Some ns =>
    Some {| calendar_synced := calendar_synced prev;
            dated_events := dated_events prev;
            notes := Some (map (fun note =>
                                  if JS.eqn note.["id"] noteId
                                  then with_completed note newCompletedState
                                  else note) ns);
            other := other prev |}
  | None => None
  end.

(** [handleToggleCompletion(noteId, currentCompleted)]; [api_ok] tells whether
    the PATCH request resolved. *)
Definition handleToggleCompletion (api_ok : bool) (noteId : Z) (currentCompleted : JS.val)
    (prev : MeetingDetails) : option MeetingDetails * list effect :=
  let newCompletedState := JS.not currentCompleted in
  let request := api_toggleTaskCompletion noteId newCompletedState in
  if api_ok then
    (mark prev noteId newCompletedState,
     [request;
      if newCompletedState then toast_success "Note marked as completed"
      else toast_info "Note marked as incomplete"])
  else
    (Some prev,
     [request;
      log (console_error "Failed to toggle completion:");
      toast_error "Failed to update completion status"]).

(** *** What the sidebar shows for a dated event (lines 245-262) *)

Definition event_title (event : obj) : JS.val := event.["title"] ||| event.["task"].
Definition event_date (event : obj) : JS.val := event.["date"] ||| event.["due_date"].
Definition event_formattedDate (event : obj) : JS.val := event.["formatted_date"].
Definition event_description (event : obj) : JS.val :=
  event.["description"] ||| event.["context"].

(** The text after the calendar icon: [formattedDate || date || 'TBD']. *)
Definition shown_date (event : obj) : JS.val :=
  event_formattedDate event ||| event_date event ||| JS.Str "TBD".
Definition shown_assignee (event : obj) : JS.val :=
  event.["assignee"] ||| JS.Str "Unassigned".

Record EventCard := {
  card_title : JS.val;
  card_date : JS.val;
  card_assignee : JS.val;
  card_description : option JS.val
}.

Definition render_event (event : obj) : EventCard :=
  {| card_title := event_title event;
     card_date := shown_date event;
     card_assignee := shown_assignee event;
     card_description := if JS.truthy (event_description event)
                         then Some (event_description event) else None |}.

(** *** What the sidebar shows for a note (lines 279-335) *)

Definition note_category (note : obj) : JS.val :=
  note.["category"] ||| note.["note_type"] ||| JS.Str "GENERAL".
Definition note_description (note : obj) : JS.val :=
  note.["description"] ||| note.["details"].

(** [detectUrgency(note.title)]; [None] when the call throws. *)
Definition note_urgency (note : obj) : option UrgencyDetector.UrgencyResult :=
  UrgencyDetector.detectUrgency note.["title"].

(** Whether the note is styled as urgent ([urgency.isUrgent]). *)
Definition note_isUrgent (note : obj) : option bool :=
  UrgencyDetector.isUrgent <$> note_urgency note.

(** Whether the urgency badge is drawn: [!note.completed && urgency.isUrgent]. *)
Definition note_badge (note : obj) : option bool :=
  (fun u => JS.not note.["completed"] && u) <$> note_isUrgent note.

End MeetingDetailPage.

(** ** lib/export.ts: the PDF export of a meeting (lines 207-211, 237-238) *)

Module ExportLib.

Definition event_title (event : obj) : JS.val := event.["title"] ||| event.["task"].
Definition event_date (event : obj) : JS.val :=
  event.["formatted_date"] ||| event.["date"] ||| event.["due_date"].
Definition event_description (event : obj) : JS.val :=
  event.["description"] ||| event.["context"].
Definition shown_date (event : obj) : JS.val := event_date event ||| JS.Str "TBD".

Definition note_category (note : obj) : JS.val :=
  note.["category"] ||| note.["note_type"] ||| JS.Str "GENERAL".
Definition note_description (note : obj) : JS.val :=
  note.["description"] ||| note.["details"].

(** *** Escaping text for the ICS export (lines 88-90) *)

Definition backslash : ascii := ascii_of_nat 92.
Definition line_feed : ascii := ascii_of_nat 10.

(** The character class [[,;\\]]. *)
Definition is_special (c : ascii) : bool :=
  Ascii.eqb c "," || Ascii.eqb c ";" || Ascii.eqb c backslash.

(** [text.replace(/[,;\\]/g, '\\$&')]. *)
Fixpoint escape_special (s : string) : string :=
  match s with
  | EmptyString => EmptyString
  | String c s' =>
    if is_special c then String backslash (String c (escape_special s'))
    else String c (escape_special s')
  end.

(** [text.replace(/\n/g, '\\n')]. *)
Fixpoint escape_newline (s : string) : string :=
  match s with
  | EmptyString => EmptyString
  | String c s' =>
    if Ascii.eqb c line_feed then String backslash (String "n" (escape_newline s'))
    else String c (escape_newline s')
  end.

Definition escapeICS (text : string) : string := escape_newline (escape_special text).

(** *** A cell of the CSV export (lines 19-25) *)

(** The replacement of every double quote by two double quotes. *)
Definition double_quote : ascii := ascii_of_nat 34.

Fixpoint double_quotes (s : string) : string :=
  match s with
  | EmptyString => EmptyString
  | String c s' =>
    if Ascii.eqb c double_quote
    then String double_quote (String double_quote (double_quotes s'))
    else String c (double_quotes s')
  end.

Fixpoint has_char (c : ascii) (s : string) : bool :=
  match s with
  | EmptyString => false
  | String d s' => Ascii.eqb d c || has_char c s'
  end.

(** The text of one cell, from the string value of the field: quotes are
    doubled, and the cell is wrapped in quotes when it holds a comma or a
    line feed. *)
Definition csv_cell (value : string) : string :=
  let stringValue := double_quotes value in
  if has_char "," stringValue || has_char line_feed stringValue
  then String double_quote (stringValue +:+ String double_quote EmptyString)
  else stringValue.

(** *** Vocabulary for the properties of the escapes *)

(** The characters of a string. *)
Definition chars (s : string) : list ascii := list_ascii_of_string s.

(** The reading that undoes [escapeICS]. *)
Fixpoint unescapeICS (s : string) : string :=
  match s with
  | EmptyString => EmptyString
  | String c s' =>
    if Ascii.eqb c backslash then
      match s' with
      | String d s'' =>
        String (if Ascii.eqb d "n" then line_feed else d) (unescapeICS s'')
      | EmptyString => String c EmptyString
      end
    else String c (unescapeICS s')
  end.

End ExportLib.

(** ** The sites that read the stored urgency value *)

Inductive ReadSite :=
| EventsList          (* app/events/page.tsx 426-429 *)
| CalendarUpcoming    (* app/calendar/page.tsx 444-448 *)
| NotesCards          (* notes page 389-394 *)
| TasksRows           (* app/tasks/page.tsx 328-331 *)
| TasksSort           (* app/tasks/page.tsx 100-104 *)
| TasksFilter         (* app/tasks/page.tsx 168-171, filter set to 'yes' *)
| TasksCounter        (* app/tasks/page.tsx 184-187 *)
| DashboardUpcoming   (* dashboard 696-699 *)
| DashboardTasks      (* dashboard 786-790 *).

(** What the page keeps in its own record for a stored value: the dashboard
    already substitutes ['no'] for a falsy value when it builds the record,
    the other pages copy the value as it is. *)
Definition kept (site : ReadSite) (stored : JS.val) : JS.val :=
  match site with
  | DashboardUpcoming | DashboardTasks => stored ||| JS.Str "no"
  | _ => stored
  end.

(** The two-valued urgency the site computes from what it kept. *)
Definition read_back (site : ReadSite) (stored : JS.val) : string :=
  UrgencyAt.urgency (kept site stored).

(** Whether the site treats the item as urgent. *)
Definition shows_urgent (site : ReadSite) (stored : JS.val) : bool :=
  match site with
  | TasksSort => (TasksPage.urgencyOrder (read_back site stored) =? 0)%Z
  | TasksFilter | TasksCounter => String.eqb (read_back site stored) "yes"
  | _ => UrgencyAt.isUrgent (kept site stored)
  end.

(** ** Vocabulary of the statements *)

(** The legacy values that count as urgent. *)
Definition urgent_value (u : JS.val) : Prop :=
  u = JS.Str "high" \/ u = JS.Str "medium" \/ u = JS.Str "yes".

(** The urgency value stored with an item: the [urgency] field of its decoded
    [event_data]. *)
Definition stored_fields (L : Lib) (eventItem : EventItem) : option obj :=
  decode L (event_data eventItem) ≫= Data_fields.

Definition stored_urgency (L : Lib) (eventItem : EventItem) : JS.val :=
  match stored_fields L eventItem with
  | Some d => d.["urgency"]
  | None => JS.Undefined
  end.


(** A library under which nothing parses; it serves to run items whose data
    is already decoded and whose date is missing or malformed. *)
Definition strict_lib : Lib :=
  {| JSON_parse := fun _ => None; parseISO := fun _ => None; newDate := fun _ => None |}.

(** The fields of a dated event read by the detail page and the export, and
    the fields of an item read by the tasks page. *)
Definition event_fields : list string :=
  ["title"; "task"; "date"; "due_date"; "formatted_date"; "description";
   "context"; "assignee"].

Definition task_fields : list string :=
  ["title"; "description"; "details"; "date"; "completed"; "category";
   "note_type"; "urgency"].

(** Two events agree on everything but [completed]. *)
Definition same_but_completed (e e' : EventsPage.Event) : Prop :=
  EventsPage.ev_id e' = EventsPage.ev_id e /\
  EventsPage.eventItemId e' = EventsPage.eventItemId e /\
  EventsPage.title e' = EventsPage.title e /\
  EventsPage.start e' = EventsPage.start e /\
  EventsPage.end_ e' = EventsPage.end_ e /\
  EventsPage.description e' = EventsPage.description e /\
  EventsPage.location e' = EventsPage.location e /\
  EventsPage.attendees e' = EventsPage.attendees e /\
  EventsPage.meetingId e' = EventsPage.meetingId e /\
  EventsPage.type e' = EventsPage.type e /\
  EventsPage.synced e' = EventsPage.synced e /\
  EventsPage.notificationsEnabled e' = EventsPage.notificationsEnabled e /\
  EventsPage.urgency e' = EventsPage.urgency e.

(** ** lib/api.ts: the request and response interceptors *)

Module ApiClient.

(** [localStorage]: [getItem] of an absent key is [null] ([None]). *)
Abbreviation Storage := (gmap string string).

(** [if (token)] on the result of [getItem]. *)
Definition present (item : option string) : bool :=
  match item with
  | Some s => negb (String.eqb s "")
  | None => false
  end.

(** The part of an axios request configuration the interceptors touch. *)
Record Request := {
  url : string;
  authorization : option string;
  _retry : bool
}.

Definition with_authorization (config : Request) (h : string) : Request :=
  {| url := url config; authorization := Some h; _retry := _retry config |}.

Definition with_retry (config : Request) : Request :=
  {| url := url config; authorization := authorization config; _retry := true |}.

(** The request interceptor.  [window] tells whether the code runs in the
    browser ([typeof window !== 'undefined']). *)
Definition on_request (window : bool) (ls : Storage) (config : Request) : Request :=
  if window then
    let token := ls !! "access_token" in
    if present token then with_authorization config ("Bearer " +:+ default "" token)
    else config
  else config.

(** The error handed to the response interceptor: [error.response?.status]
    and [error.config]. *)
Record ApiError := {
  status : option Z;
  config : Request
}.

(** The body of a successful answer of [/api/auth/refresh]. *)
Record RefreshData := {
  access_token : string;
  refresh_token : option string
}.

Inductive effect :=
| post_refresh (refresh_token : string)
| redirect (href : string).

(** How the interceptor settles: it rejects with the original error, rejects
    with the error of the refresh request, or sends the request again. *)
Inductive settlement :=
| reject_original
| reject_refresh
| resend (config : Request).

(** The rejection handler of the response interceptor.  [refresh] is the
    outcome of the refresh request, should it be sent: the body received, or
    [None] when it fails. *)
Definition on_rejected (window : bool) (refresh : option RefreshData)
    (ls : Storage) (error : ApiError) : Storage * settlement * list effect :=
  let originalRequest := config error in
  if bool_decide (status error = Some 401%Z) && negb (_retry originalRequest) then
    let originalRequest := with_retry originalRequest in
    let refreshToken := if window then ls !! "refresh_token" else None in
    if present refreshToken then
      match refresh with
      | Some data =>
        let ls' :=
          if window then
            let ls1 := <[ "access_token" := access_token data ]> ls in
            if present (refresh_token data)
            then <[ "refresh_token" := default "" (refresh_token data) ]> ls1
            else ls1
          else ls in
        let originalRequest :=
          with_authorization originalRequest ("Bearer " +:+ access_token data) in
        (ls', resend (on_request window ls' originalRequest),
         [post_refresh (default "" refreshToken)])
      | None =>
        if window then
          (delete "refresh_token" (delete "access_token" ls), reject_refresh,
           [post_refresh (default "" refreshToken); redirect "/signin"])
        else (ls, reject_refresh, [post_refresh (default "" refreshToken)])
      end
    else (ls, reject_original, [])
  else (ls, reject_original, []).

End ApiClient.

(** ** lib/auth-context.tsx: the authentication provider *)

Module AuthContext.

Import ApiClient.

(** The signed-in user, as far as the pages look at it. *)
Record User := {
  user_id : Z;
  email : string;
  calendar_connected : JS.val
}.

Record Tokens := {
  tk_access_token : string;
  tk_refresh_token : string;
  tk_user : User
}.

Record State := {
  storage : Storage;
  user : option User;
  loading : bool
}.

(** [login(tokens)]. *)
Definition login (tokens : Tokens) (st : State) : State :=
  {| storage := <[ "refresh_token" := tk_refresh_token tokens ]>
                  (<[ "access_token" := tk_access_token tokens ]> (storage st));
     user := Some (tk_user tokens);
     loading := loading st |}.

(** [logout()]. *)
Definition logout (st : State) : State :=
  {| storage := delete "refresh_token" (delete "access_token" (storage st));
     user := None;
     loading := loading st |}.

(** [checkAuth], run on mount: [current] is the outcome of
    [authAPI.getCurrentUser] ([None] when it fails). *)
Definition checkAuth (current : option User) (st : State) : State :=
  if present (storage st !! "access_token") then
    match current with
    | Some userData =>
      {| storage := storage st; user := Some userData; loading := false |}
    | None =>
      {| storage := delete "refresh_token" (delete "access_token" (storage st));
         user := user st; loading := false |}
    end
  else {| storage := storage st; user := user st; loading := false |}.

(** [refreshUser]. *)
Definition refreshUser (current : option User) (st : State) : State :=
  match current with
  | Some userData => {| storage := storage st; user := Some userData; loading := loading st |}
  | None => st
  end.

End AuthContext.

(** ** Pagination of the events and notes lists *)

Module Pagination.

(** [totalPages], [startIndex], [endIndex] and the page shown, as both list
    pages compute them from the filtered list. *)
Definition totalPages {A} (filtered : list A) (itemsPerPage : Z) : option Z :=
  JS.ceil_div (Z.of_nat (length filtered)) itemsPerPage.

Definition startIndex (currentPage itemsPerPage : Z) : Z :=
  ((currentPage - 1) * itemsPerPage)%Z.

Definition endIndex (currentPage itemsPerPage : Z) : Z :=
  (startIndex currentPage itemsPerPage + itemsPerPage)%Z.

Definition paginated {A} (filtered : list A) (currentPage itemsPerPage : Z) : list A :=
  JS.slice filtered (startIndex currentPage itemsPerPage)
                    (endIndex currentPage itemsPerPage).

(** The pages 1 to [n], one after the other. *)
Definition pages {A} (filtered : list A) (itemsPerPage : Z) (n : nat) : list (list A) :=
  map (fun j => paginated filtered (Z.of_nat j + 1) itemsPerPage) (seq 0 n).

End Pagination.

(** All the items of the meetings received, in the order the pages go through
    them. *)
Definition all_items (meetings : list Meeting) : list EventItem :=
  flat_map (fun meeting => default [] (events meeting)) meetings.

(** The items the events page keeps when it fetches: dated events whose data
    decodes to a record with a truthy [date]. *)
Definition has_date (L : Lib) (eventItem : EventItem) : bool :=
  String.eqb (event_type eventItem) "dated_events" &&
  match stored_fields L eventItem with
  | Some d => JS.truthy d.["date"]
  | None => false
  end.

(** The order the tasks page sorts by: urgent before normal, then pending
    before completed, then by date. *)
Definition task_key (t : TasksPage.Task) : Z * Z * Z :=
  (TasksPage.urgencyOrder (TasksPage.level t),
   if JS.truthy (TasksPage.completed t) then 1%Z else 0%Z,
   default 0%Z (TasksPage.date t)).

(** The lexicographic order on such keys. *)
Definition key_le (k1 k2 : Z * Z * Z) : Prop :=
  (k1.1.1 < k2.1.1 \/
   (k1.1.1 = k2.1.1 /\ (k1.1.2 < k2.1.2 \/ (k1.1.2 = k2.1.2 /\ k1.2 <= k2.2))))%Z.

Definition task_le (a b : TasksPage.Task) : Prop := key_le (task_key a) (task_key b).

(** A task whose date is valid and whose [completed] is a boolean. *)
Definition regular_task (t : TasksPage.Task) : Prop :=
  (exists time, TasksPage.date t = Some time) /\
  (exists b, TasksPage.completed t = JS.Bool b).

(** A library that reads a date given as a number of milliseconds, as
    [new Date(n)] does, and nothing else; it serves to run examples. *)
Definition epoch_lib : Lib :=
  {| JSON_parse := fun _ => None;
     parseISO := fun _ => None;
     newDate := fun v => match v with JS.Num z => JS.Date_of_time z | _ => None end |}.

(** An upcoming event that lies after [now]. *)
Definition after (now : Z) (e : DashboardPage.Upcoming) : Prop :=
  exists t, DashboardPage.date e = Some t /\ (now < t)%Z.

(** No later than, on upcoming events. *)
Definition sooner (a b : DashboardPage.Upcoming) : Prop :=
  (default 0 (DashboardPage.date a) <= default 0 (DashboardPage.date b))%Z.

(** Among the items [evs] of a meeting there is a completed dated event whose
    title, in lower case, is [key]. *)
Definition completed_task_titled (L : Lib) (evs : list EventItem) (key : string) : Prop :=
  exists task d,
    task ∈ evs /\ event_type task = "dated_events" /\
    stored_fields L task = Some d /\
    JS.truthy d.["completed"] = true /\
    NotesPage.title_key d.["title"] = Some key.




(** Two events agree on everything but [notificationsEnabled]. *)
Definition same_but_notifications (e e' : EventsPage.Event) : Prop :=
  EventsPage.ev_id e' = EventsPage.ev_id e /\
  EventsPage.eventItemId e' = EventsPage.eventItemId e /\
  EventsPage.title e' = EventsPage.title e /\
  EventsPage.start e' = EventsPage.start e /\
  EventsPage.end_ e' = EventsPage.end_ e /\
  EventsPage.description e' = EventsPage.description e /\
  EventsPage.location e' = EventsPage.location e /\
  EventsPage.attendees e' = EventsPage.attendees e /\
  EventsPage.meetingId e' = EventsPage.meetingId e /\
  EventsPage.type e' = EventsPage.type e /\
  EventsPage.synced e' = EventsPage.synced e /\
  EventsPage.completed e' = EventsPage.completed e /\
  EventsPage.urgency e' = EventsPage.urgency e.

(** The first event of the list with the given id. *)
Definition first_with_id (events : list EventsPage.Event) (eventId : string)
    : option EventsPage.Event :=
  List.find (fun e => String.eqb (EventsPage.ev_id e) eventId) events.

(** A text made of ASCII characters only, on which the model of the letter
    case functions is exact. *)
Definition ascii_text (s : string) : Prop :=
  Forall (fun c => nat_of_ascii c < 128) (list_ascii_of_string s).

(** The categories of the notes page. *)
Definition note_categories : list string := ["decision"; "budget"; "action"; "general"].

(** ** app/signup/page.tsx and app/reset-password/page.tsx *)

(** The password checks, which the two pages spell out alike (signup lines
    47-56, reset-password lines 33-42).  Texts are kept as UTF-16 code units,
    so that [length] is the [length] of the source. *)
Module PasswordRules.

Definition ustring := DashboardPage.ustring.

Definition passwordLength (password : ustring) : Z := Z.of_nat (length password).

Definition hasMinLength (password : ustring) : bool := (8 <=? passwordLength password)%Z.
Definition hasMaxLength (password : ustring) : bool := (passwordLength password <=? 128)%Z.

(** [/[a-b]/.test(password)]. *)
Definition test_range (a b : N) (password : ustring) : bool :=
  existsb (fun c => (a <=? c)%N && (c <=? b)%N) password.

Definition hasUpperCase : ustring -> bool := test_range 65 90.
Definition hasLowerCase : ustring -> bool := test_range 97 122.
Definition hasNumber : ustring -> bool := test_range 48 57.

Definition passwordsMatch (password confirmPassword : ustring) : bool :=
  bool_decide (password = confirmPassword) && (0 <? Z.of_nat (length confirmPassword))%Z.

Definition passwordStrength (password : ustring) : nat :=
  length (List.filter (fun b : bool => b)
            [hasMinLength password; hasUpperCase password;
             hasLowerCase password; hasNumber password]).

Definition isPasswordValid (password : ustring) : bool :=
  hasMinLength password && hasMaxLength password.

(** The [disabled] attribute of the submit button, negated (signup line 301,
    reset-password line 258). *)
Definition submit_enabled (isLoading : bool) (password confirmPassword : ustring) : bool :=
  negb (isLoading || negb (isPasswordValid password)
        || negb (passwordsMatch password confirmPassword)).

Definition msg_too_short : string := "Password must be at least 8 characters long".
Definition msg_too_long (password : ustring) : string :=
  "Password is too long (" +:+ pretty (passwordLength password)
  +:+ " characters). Maximum is 128 characters.".
Definition msg_mismatch : string := "Passwords do not match".

End PasswordRules.

Module SignupPage.

Import PasswordRules.

Record FormData := {
  name : ustring;
  email : ustring;
  password : ustring;
  confirmPassword : ustring
}.

(** What the page reads of the answer to a registration. *)
Record AuthResult := {
  calendar_connected : JS.val
}.

Inductive effect :=
| setError (msg : JS.val)
| toast_error (msg : JS.val)
| toast_success (msg : string)
| toast_info (msg : string)
| setIsLoading (b : bool)
| api_emailRegister (email_ password_ name_ : ustring)
| login (result : AuthResult)
| api_getAuthUrl
| set_location_href (url : JS.val)
| log (c : console)
| router_push (path : string).

(** [redirectAfterLogin(userData)] (lines 21-37); [authUrl] is the answer of
    [calendarAPI.getAuthUrl], [None] when it is rejected. *)
Definition redirectAfterLogin (userData : AuthResult) (authUrl : option JS.val)
    : list effect :=
  if JS.not (calendar_connected userData) then
    [toast_info "Connect your Google Calendar to sync meetings"; api_getAuthUrl]
    ++ match authUrl with
       | Some authorization_url => [set_location_href authorization_url]
       | None => [log (console_error "Failed to get calendar auth URL:");
                  router_push "/dashboard"]
       end
  else [router_push "/dashboard"].

Definition refuse (errorMsg : string) : list effect :=
  [setError (JS.Str errorMsg); toast_error (JS.Str errorMsg)].

(** [handleSubmit] (lines 58-109).  [register] is the outcome of the
    registration request: the answer, or the [detail] of the error response
    ([undefined] when there is none). *)
Definition handleSubmit (register : AuthResult + JS.val) (authUrl : option JS.val)
    (formData : FormData) : list effect :=
  setError (JS.Str "") ::
  if DashboardPage.is_empty (DashboardPage.trim (name formData)) then
    refuse "Please enter your name"
  else if (passwordLength (password formData) <? 8)%Z then
    refuse msg_too_short
  else if (128 <? passwordLength (password formData))%Z then
    refuse (msg_too_long (password formData))
  else if negb (bool_decide (password formData = confirmPassword formData)) then
    refuse msg_mismatch
  else
    [setIsLoading true;
     api_emailRegister (email formData) (password formData) (name formData)]
    ++ match register with
       | inl result =>
         [login result;
          toast_success "Account created successfully! Welcome to ESAPListen"]
         ++ redirectAfterLogin result authUrl
       | inr detail =>
         let errorMessage := detail ||| JS.Str "Sign up failed. Please try again." in
         [setError errorMessage; toast_error errorMessage]
       end
    ++ [setIsLoading false].

Definition is_register (e : effect) : bool :=
  match e with api_emailRegister _ _ _ => true | _ => false end.

End SignupPage.

Module ResetPasswordPage.

Import PasswordRules.

Inductive effect :=
| setToken (token : string)
| toast_error (msg : JS.val)
| toast_success (msg : string)
| setIsLoading (b : bool)
| api_resetPassword (token : string) (new_password : ustring)
| setResetSuccess (b : bool)
| setTimeout_router_push (path : string) (ms : Z).

(** The effect that reads the token of the link (lines 23-30);
    [tokenFromUrl] is [searchParams.get('token')].  The result is the token
    the page holds afterwards, from the initial empty one, and what was
    emitted. *)
Definition read_token (tokenFromUrl : option string) : string * list effect :=
  match tokenFromUrl with
  | Some t => if negb (String.eqb t "") then (t, [setToken t])
              else ("", [toast_error (JS.Str "Invalid reset link")])
  | None => ("", [toast_error (JS.Str "Invalid reset link")])
  end.

(** [handleSubmit] (lines 44-82); [reset] is the outcome of the request: it
    resolved, or the [detail] of the error response. *)
Definition handleSubmit (reset : unit + JS.val) (token : string)
    (password confirmPassword : ustring) : list effect :=
  if (passwordLength password <? 8)%Z then [toast_error (JS.Str msg_too_short)]
  else if (128 <? passwordLength password)%Z then
    [toast_error (JS.Str (msg_too_long password))]
  else if negb (bool_decide (password = confirmPassword)) then
    [toast_error (JS.Str msg_mismatch)]
  else
    [setIsLoading true; api_resetPassword token password]
    ++ match reset with
       | inl _ =>
         [toast_success "Password reset successfully!"; setResetSuccess true;
          setTimeout_router_push "/signin" 2000]
       | inr detail =>
         [toast_error
            (detail ||| JS.Str "Failed to reset password. The link may be invalid or expired.")]
       end
    ++ [setIsLoading false].

(** Whether the page renders the form, and with it the only caller of
    [handleSubmit]: after a successful reset it renders the success screen
    instead (line 95), and without a token the invalid-link notice (lines
    139-150). *)
Definition form_rendered (token : string) (resetSuccess : bool) : bool :=
  negb resetSuccess && negb (String.eqb token "").

End ResetPasswordPage.

(** [Number.isSafeInteger]: the integers a JavaScript number holds exactly
    and prints digit for digit. *)
Definition safe_integer (n : Z) : Prop := (Z.abs n <= 9007199254740991)%Z.

(** A stored item on which the model is exact: its id is a safe integer and
    its title, if it is a string, is ASCII text. *)
Definition plain_item (L : Lib) (eventItem : EventItem) : Prop :=
  safe_integer (id eventItem) /\
  forall d s, stored_fields L eventItem = Some d -> d.["title"] = JS.Str s -> ascii_text s.

(** The time of a stored item: [new Date(eventData.date)] on its decoded
    data, [None] when the data does not decode to a record or the date is
    invalid. *)
Definition item_time (L : Lib) (eventItem : EventItem) : option Z :=
  stored_fields L eventItem ≫= fun d => newDate L d.["date"].

(** The stored items that are upcoming events at the moment [now]: dated
    events whose time is valid and later than [now]. *)
Definition upcoming_item (L : Lib) (now : Z) (eventItem : EventItem) : bool :=
  String.eqb (event_type eventItem) "dated_events" &&
  match item_time L eventItem with
  | Some t => (now <? t)%Z
  | None => false
  end.

(** What identifies an upcoming event: the id of its item and its time. *)
Definition upcoming_entry (e : DashboardPage.Upcoming) : Z * option Z :=
  (DashboardPage.up_id e, DashboardPage.date e).

(* ===================================================================== *)
(** * Part II.  Properties                                                *)
(* ===================================================================== *)

(** ** Basic facts about the JavaScript operators *)

Section JSFacts.

Implicit Types (v w : JS.val) (s : string) (d : obj).

Lemma truthy_Str s : JS.truthy (JS.Str s) = true <-> s <> "".
Proof.
  simpl. destruct (String.eqb_spec s ""); simpl; split; congruence.
Qed.

Lemma or_truthy v w : JS.truthy v = true -> v ||| w = v.
Proof. unfold JS.or. now intros ->. Qed.

Lemma or_falsy v w : JS.truthy v = false -> v ||| w = w.
Proof. unfold JS.or. now intros ->. Qed.

Lemma eqs_true v s : v === s = true <-> v = JS.Str s.
Proof.
  destruct v; simpl; try (split; [discriminate | congruence]).
  rewrite String.eqb_eq. split; congruence.
Qed.

Lemma get_insert_eq d k v : (<[k := v]> d).[k] = v.
Proof. unfold JS.get. now rewrite lookup_insert_eq. Qed.

Lemma get_insert_ne d k k' v : k <> k' -> (<[k := v]> d).[k'] = d.[k'].
Proof. intros H. unfold JS.get. now rewrite lookup_insert_ne. Qed.

Lemma get_delete_eq d k : (delete k d).[k] = JS.Undefined.
Proof. unfold JS.get. now rewrite lookup_delete_eq. Qed.

Lemma get_delete_ne d k k' : k <> k' -> (delete k d).[k'] = d.[k'].
Proof. intros H. unfold JS.get. now rewrite lookup_delete_ne. Qed.

Lemma get_absent d k : d !! k = None -> d.[k] = JS.Undefined.
Proof. unfold JS.get. now intros ->. Qed.

End JSFacts.

(** ** The display-time urgency mapping *)

Section Urgency.

Implicit Types (u stored : JS.val) (site : ReadSite).

Lemma urgency_two_valued u : UrgencyAt.urgency u = "yes" \/ UrgencyAt.urgency u = "no".
Proof.
  unfold UrgencyAt.urgency.
  destruct (_ || _ || _); [now left | now right].
Qed.

Lemma urgency_yes_iff u : UrgencyAt.urgency u = "yes" <-> urgent_value u.
Proof.
  unfold UrgencyAt.urgency, UrgencyAt.rawUrgency, urgent_value, JS.or.
  destruct (JS.truthy u) eqn:Ht.
  - destruct (u === "high") eqn:H1; [apply eqs_true in H1; now subst; split; auto |].
    destruct (u === "medium") eqn:H2; [apply eqs_true in H2; now subst; split; auto |].
    destruct (u === "yes") eqn:H3; [apply eqs_true in H3; now subst; split; auto |].
    simpl. split; [discriminate |].
    intros [-> | [-> | ->]]; simpl in *; discriminate.
  - simpl. split; [discriminate |].
    intros [-> | [-> | ->]]; simpl in Ht; discriminate.
Qed.

Lemma isUrgent_iff u : UrgencyAt.isUrgent u = true <-> urgent_value u.
Proof.
  unfold UrgencyAt.isUrgent. rewrite String.eqb_eq. apply urgency_yes_iff.
Qed.

(** Substituting ['no'] for a falsy value, as the dashboard does when it
    builds its records, does not change the outcome. *)
Lemma urgency_or_no u : UrgencyAt.urgency (u ||| JS.Str "no") = UrgencyAt.urgency u.
Proof.
  unfold UrgencyAt.urgency, UrgencyAt.rawUrgency, JS.or.
  destruct (JS.truthy u) eqn:Ht; [now rewrite Ht |]. reflexivity.
Qed.

Lemma read_back_spec site stored : read_back site stored = UrgencyAt.urgency stored.
Proof.
  unfold read_back, kept. destruct site; auto using urgency_or_no.
Qed.

Lemma shows_urgent_spec site stored :
  shows_urgent site stored = String.eqb (UrgencyAt.urgency stored) "yes".
Proof.
  unfold shows_urgent, UrgencyAt.isUrgent.
  destruct site; fold (read_back EventsList stored);
    rewrite ?read_back_spec; try reflexivity;
    try (fold (read_back DashboardUpcoming stored); now rewrite read_back_spec);
    try (fold (read_back DashboardTasks stored); now rewrite read_back_spec).
  unfold TasksPage.urgencyOrder.
  destruct (urgency_two_valued stored) as [-> | ->]; reflexivity.
Qed.

End Urgency.

(** ** From the stored item to the record a page keeps *)

Section Fetch.

Variable L : Lib.
Implicit Types (meeting : Meeting) (eventItem : EventItem).

Ltac unfold_item :=
  unfold stored_urgency, stored_fields;
  let D := fresh "D" in
  destruct (decode L (event_data _)) as [?|] eqn:D; simpl;
  [ | intros; exfalso; eapply not_elem_of_nil; eassumption ];
  repeat match goal with
         | |- context [String.eqb ?a ?b] => destruct (String.eqb a b) eqn:?; simpl
         | |- context [Data_fields ?x] => destruct (Data_fields x) eqn:?; simpl
         | |- context [JS.not ?x] => destruct (JS.not x) eqn:?; simpl
         | |- context [JS.truthy ?x] => destruct (JS.truthy x) eqn:?; simpl
         | |- context [JS.isValid ?x] => destruct (JS.isValid x) eqn:?; simpl
         | |- context [newDate L ?x] => destruct (newDate L x) eqn:?; simpl
         | |- context [(?a <? ?b)%Z] => destruct (a <? b)%Z eqn:?; simpl
         | |- context [NotesPage.map_category ?x] =>
             destruct (NotesPage.map_category x) eqn:?; simpl
         | |- context [NotesPage.title_key ?x] =>
             destruct (NotesPage.title_key x) eqn:?; simpl
         end;
  try (intros; exfalso; eapply not_elem_of_nil; eassumption).

Lemma events_keep_stored meeting eventItem e :
  e ∈ (EventsPage.processItem L meeting eventItem).1 ->
  EventsPage.urgency e = stored_urgency L eventItem.
Proof.
  unfold EventsPage.processItem. unfold_item;
    intros ->%list_elem_of_singleton; reflexivity.
Qed.

Lemma calendar_keeps_stored meeting eventItem e :
  e ∈ (CalendarPage.processItem L meeting eventItem).1 ->
  CalendarPage.urgency e = stored_urgency L eventItem.
Proof.
  unfold CalendarPage.processItem. unfold_item;
    intros ->%list_elem_of_singleton; reflexivity.
Qed.

Lemma notes_keep_stored meeting finalSummary done eventItem n :
  n ∈ (NotesPage.processItem L meeting finalSummary done eventItem).1 ->
  NotesPage.urgency n = stored_urgency L eventItem.
Proof.
  unfold NotesPage.processItem. unfold_item;
    intros ->%list_elem_of_singleton; reflexivity.
Qed.

Lemma tasks_keep_stored meeting eventItem t :
  t ∈ (TasksPage.processItem L meeting eventItem).1 ->
  TasksPage.urgency t = stored_urgency L eventItem.
Proof.
  unfold TasksPage.processItem. unfold_item;
    intros ->%list_elem_of_singleton; reflexivity.
Qed.

Lemma dashboard_keeps_stored now meeting eventItem e :
  e ∈ (DashboardPage.processItem L now meeting eventItem).1 ->
  DashboardPage.urgency e = kept DashboardUpcoming (stored_urgency L eventItem).
Proof.
  unfold DashboardPage.processItem. unfold_item;
    intros ->%list_elem_of_singleton; reflexivity.
Qed.

End Fetch.

(** ** Urgency read back from stored values *)

(** C1 (urgency collapse rule).  At every site that reads the stored urgency
    value, the item is treated as urgent exactly when the stored value is the
    string 'high', 'medium' or 'yes', and the two-valued urgency computed is
    'no' in every other case.  The events page and the notes page apply this
    to the [urgency] field of their records.  In particular 'medium' and 'yes'
    read back as urgent, 'low' and 'no' as normal. *)
Theorem urgency_collapse_rule :
  (forall site stored,
      shows_urgent site stored = true <->
      stored = JS.Str "high" \/ stored = JS.Str "medium" \/ stored = JS.Str "yes") /\
  (forall site stored,
      (read_back site stored = "yes" /\ shows_urgent site stored = true) \/
      (read_back site stored = "no" /\ shows_urgent site stored = false)) /\
  (forall e : EventsPage.Event,
      EventsPage.isUrgent e = shows_urgent EventsList (EventsPage.urgency e)) /\
  (forall n : NotesPage.Note,
      NotesPage.isUrgent n = shows_urgent NotesCards (NotesPage.urgency n)) /\
  (forall site,
      shows_urgent site (JS.Str "medium") = true /\
      shows_urgent site (JS.Str "yes") = true /\
      shows_urgent site (JS.Str "low") = false /\
      shows_urgent site (JS.Str "no") = false).
Proof.
  split; [| split; [| split; [| split]]].
  - intros site stored. rewrite shows_urgent_spec, String.eqb_eq.
    apply urgency_yes_iff.
  - intros site stored. rewrite shows_urgent_spec, read_back_spec.
    destruct (urgency_two_valued stored) as [-> | ->]; [left | right]; now split.
  - reflexivity.
  - reflexivity.
  - intros site. rewrite !shows_urgent_spec. repeat split; reflexivity.
Qed.

(** C10 (missing urgency).  At every site that reads the stored urgency
    value, an item whose urgency is undefined (the field is absent), null or
    the empty string is treated as not urgent, and its two-valued urgency is
    'no'; the same holds for a stored record from which the field has been
    removed. *)
Theorem missing_urgency_is_normal :
  forall site,
    (shows_urgent site JS.Undefined = false /\ read_back site JS.Undefined = "no") /\
    (shows_urgent site JS.Null = false /\ read_back site JS.Null = "no") /\
    (shows_urgent site (JS.Str "") = false /\ read_back site (JS.Str "") = "no") /\
    (forall d : obj, shows_urgent site (delete "urgency" d).["urgency"] = false).
Proof.
  intros site. rewrite !shows_urgent_spec, !read_back_spec.
  repeat split; try reflexivity.
  intros d. rewrite shows_urgent_spec, get_delete_eq. reflexivity.
Qed.

(** ** Keyword detection on the meeting detail page *)

Section Detect.

Import UrgencyDetector.

Lemma scan_spec lowerText l kws found lv :
  scan lowerText l kws (found, lv) =
  ((found ++ List.filter (JS.includes lowerText) kws)%list,
   if existsb (JS.includes lowerText) kws then l else lv).
Proof.
  unfold scan. revert found lv.
  induction kws as [| kw kws IH]; intros found lv; simpl.
  - now rewrite app_nil_r.
  - destruct (JS.includes lowerText kw); simpl; rewrite IH.
    + rewrite <- app_assoc. simpl. f_equal. now destruct (existsb _ kws).
    + reflexivity.
Qed.


(** X1.  The level [detectUrgency] returns for a string is high when the
    lower-cased text contains one of the high keywords, otherwise medium when
    it contains one of the medium keywords, otherwise low. *)
Lemma detectUrgency_str_level text :
  level (detectUrgency_str text) =
  if existsb (JS.includes (JS.toLowerCase text)) URGENT_KEYWORDS_high then high
  else if existsb (JS.includes (JS.toLowerCase text)) URGENT_KEYWORDS_medium then medium
  else low.
Proof.
  unfold detectUrgency_str.
  destruct (String.eqb_spec text "") as [-> | _]; [reflexivity |].
  generalize URGENT_KEYWORDS_high, URGENT_KEYWORDS_medium. intros hs ms.
  rewrite !scan_spec. cbn [fst snd app level].
  destruct (existsb _ hs), (existsb _ ms); reflexivity.
Qed.

End Detect.

(** ** What decides whether an item is shown as urgent *)




(** ** Dated events without a usable date *)

Section Loops.

Context {A : Type}.
Implicit Types (body : Meeting -> EventItem -> list A * list console).

Lemma elem_of_collect_fst (rs : list (list A * list console)) (x : A) :
  x ∈ (collect rs).1 <-> exists r, r ∈ rs /\ x ∈ r.1.
Proof.
  unfold collect. simpl. rewrite list_elem_of_In, in_concat. split.
  - intros (l & Hl & Hx). apply in_map_iff in Hl as (r & <- & Hr).
    exists r. now rewrite !list_elem_of_In.
  - intros (r & Hr & Hx). exists r.1. apply list_elem_of_In in Hr; apply list_elem_of_In in Hx.
    split; [| done]. apply in_map_iff. eauto.
Qed.

Lemma elem_of_collect_snd (rs : list (list A * list console)) (c : console) :
  c ∈ (collect rs).2 <-> exists r, r ∈ rs /\ c ∈ r.2.
Proof.
  unfold collect. simpl. rewrite list_elem_of_In, in_concat. split.
  - intros (l & Hl & Hx). apply in_map_iff in Hl as (r & <- & Hr).
    exists r. now rewrite !list_elem_of_In.
  - intros (r & Hr & Hx). exists r.2. apply list_elem_of_In in Hr; apply list_elem_of_In in Hx.
    split; [| done]. apply in_map_iff. eauto.
Qed.

Lemma elem_of_forEach_event body meetings (x : A) :
  x ∈ (forEach_event body meetings).1 <->
  exists meeting evs eventItem,
    meeting ∈ meetings /\ events meeting = Some evs /\ eventItem ∈ evs /\
    x ∈ (body meeting eventItem).1.
Proof.
  unfold forEach_event. rewrite elem_of_collect_fst. split.
  - intros (r & Hr & Hx).
    apply list_elem_of_In, in_flat_map in Hr as (meeting & Hm & Hr).
    apply list_elem_of_In in Hm.
    destruct (events meeting) as [evs|] eqn:He; [| now destruct Hr].
    apply list_elem_of_In, list_elem_of_fmap in Hr as (eventItem & -> & Hi).
    eauto 8.
  - intros (meeting & evs & eventItem & Hm & He & Hi & Hx).
    exists (body meeting eventItem). split; [| done].
    apply list_elem_of_In, in_flat_map. exists meeting.
    split; [now apply list_elem_of_In |].
    rewrite He. apply list_elem_of_In, list_elem_of_fmap. eauto.
Qed.

End Loops.

(** C2, counterexample.  A meeting holds two dated events, one without a
    date and one whose date does not parse.  The calendar page leaves both
    out with a warning each, the notes page builds no note from either, and
    the events page passes over the first without a message and keeps the
    second with an invalid start date. *)
Lemma unusable_date_is_not_demoted :
  let undated :=
    {| id := 7; event_type := "dated_events";
       event_data := RawValue (DObj {[ "title" := JS.Str "Submit report" ]}) |} in
  let garbled :=
    {| id := 8; event_type := "dated_events";
       event_data := RawValue (DObj {[ "title" := JS.Str "Review";
                                       "date" := JS.Str "next week" ]}) |} in
  let meeting :=
    {| job_id := "job-1"; created_at := JS.Str "2025-01-01T00:00:00Z";
       final_summary := RawValue (DObj ∅); events := Some [undated; garbled] |} in
  CalendarPage.fetchEvents strict_lib [meeting] =
    ([], [CalendarPage.warn_missing_date;
          CalendarPage.log_processing; CalendarPage.warn_invalid_date]) /\
  NotesPage.fetchNotes strict_lib [meeting] = ([], []) /\
  (EventsPage.fetchEvents strict_lib [meeting]).2 = [] /\
  map EventsPage.start (EventsPage.fetchEvents strict_lib [meeting]).1 = [None].
Proof. vm_compute. repeat split; reflexivity. Qed.

(** C2, as the code has it.  On the calendar page a dated event whose date
    field is missing or empty is left out with one logged warning, and so is
    one whose date does not parse to a valid date; every event the calendar
    page extracts has a valid start date.  Such an item is not turned into a
    note: the notes page builds notes from items of type 'notes' only. *)
Theorem calendar_skips_unusable_dates (L : Lib) :
  (forall meeting eventItem d,
      event_type eventItem = "dated_events" ->
      stored_fields L eventItem = Some d ->
      JS.truthy d.["date"] = false ->
      CalendarPage.processItem L meeting eventItem =
      ([], [CalendarPage.warn_missing_date])) /\
  (forall meeting eventItem d,
      event_type eventItem = "dated_events" ->
      stored_fields L eventItem = Some d ->
      JS.truthy d.["date"] = true ->
      JS.isValid (parseISO L d.["date"]) = false ->
      CalendarPage.processItem L meeting eventItem =
      ([], [CalendarPage.log_processing; CalendarPage.warn_invalid_date])) /\
  (forall meetings e,
      e ∈ (CalendarPage.fetchEvents L meetings).1 ->
      JS.isValid (CalendarPage.start e) = true) /\
  (forall meeting finalSummary done eventItem,
      event_type eventItem = "dated_events" ->
      (NotesPage.processItem L meeting finalSummary done eventItem).1 = []) /\
  (forall meetings n,
      n ∈ (NotesPage.fetchNotes L meetings).1 ->
      exists meeting evs eventItem,
        meeting ∈ meetings /\ events meeting = Some evs /\ eventItem ∈ evs /\
        event_type eventItem = "notes" /\
        NotesPage.note_id n = tagged "note-" (id eventItem)).
Proof.
  repeat apply conj.
  - intros meeting eventItem d Ht Hd Hdate.
    unfold CalendarPage.processItem, stored_fields in *.
    destruct (decode L (event_data eventItem)) as [x|]; [simpl in Hd | discriminate].
    rewrite Ht, Hd. simpl. unfold JS.not. now rewrite Hdate.
  - intros meeting eventItem d Ht Hd Hdate Hinv.
    unfold CalendarPage.processItem, stored_fields in *.
    destruct (decode L (event_data eventItem)) as [x|]; [simpl in Hd | discriminate].
    rewrite Ht, Hd. simpl. unfold JS.not. now rewrite Hdate, Hinv.
  - intros meetings e He.
    apply elem_of_forEach_event in He as (meeting & evs & eventItem & _ & _ & _ & He).
    revert He. unfold CalendarPage.processItem.
    destruct (decode L (event_data eventItem)) as [x|]; simpl;
      [| now intros ?%not_elem_of_nil].
    destruct (String.eqb _ _); [| now intros ?%not_elem_of_nil].
    destruct (Data_fields x) as [d|]; [| now intros ?%not_elem_of_nil].
    destruct (JS.not _); [now intros ?%not_elem_of_nil |].
    destruct (JS.isValid (parseISO L _)) eqn:Hv; simpl;
      [| now intros ?%not_elem_of_nil].
    now intros ->%list_elem_of_singleton.
  - intros meeting finalSummary done eventItem Ht.
    unfold NotesPage.processItem. rewrite Ht.
    now destruct (decode L (event_data eventItem)).
  - intros meetings n Hn.
    apply elem_of_collect_fst in Hn as (r & Hr & Hn).
    apply list_elem_of_fmap in Hr as (meeting & -> & Hm).
    unfold NotesPage.processMeeting in Hn.
    destruct (decode L (final_summary meeting)) as [fs|];
      [| now apply not_elem_of_nil in Hn].
    destruct (events meeting) as [evs|] eqn:He; [| now apply not_elem_of_nil in Hn].
    apply elem_of_collect_fst in Hn as (r & Hr & Hn).
    apply list_elem_of_fmap in Hr as (eventItem & -> & Hi).
    exists meeting, evs, eventItem. repeat split; try done.
    + revert Hn. unfold NotesPage.processItem.
      destruct (decode L (event_data eventItem)); [| now intros ?%not_elem_of_nil].
      destruct (String.eqb_spec (event_type eventItem) "notes"); [done |].
      now intros ?%not_elem_of_nil.
    + revert Hn. unfold NotesPage.processItem.
      destruct (decode L (event_data eventItem)) as [x|]; [| now intros ?%not_elem_of_nil].
      destruct (String.eqb _ _); [| now intros ?%not_elem_of_nil].
      destruct (Data_fields x) as [d|], (Data_fields fs);
        try now intros ?%not_elem_of_nil.
      destruct (NotesPage.map_category d.["category"]),
               (NotesPage.title_key d.["title"]);
        try now intros ?%not_elem_of_nil.
      now intros ->%list_elem_of_singleton.
Qed.

(** The first item of the counterexample, run through the first part of the
    statement. *)
Lemma calendar_skips_unusable_dates_witness :
  let undated :=
    {| id := 7; event_type := "dated_events";
       event_data := RawValue (DObj {[ "title" := JS.Str "Submit report" ]}) |} in
  let meeting :=
    {| job_id := "job-1"; created_at := JS.Str "2025-01-01T00:00:00Z";
       final_summary := RawValue (DObj ∅); events := Some [undated] |} in
  CalendarPage.processItem strict_lib meeting undated =
  ([], [CalendarPage.warn_missing_date]).
Proof.
  intros undated meeting.
  apply (proj1 (calendar_skips_unusable_dates strict_lib)
           meeting undated {[ "title" := JS.Str "Submit report" ]}).
  - reflexivity.
  - reflexivity.
  - vm_compute. reflexivity.
Defined.

(** ** The calendar-sync trigger *)

Section Sync.

Import MeetingDetailPage.

Lemma pushes_le_one jobId outcome reload st :
  pushes (handleSyncCalendar jobId outcome reload st).2 <= 1.
Proof.
  unfold handleSyncCalendar, loadMeeting, pushes.
  destruct (JS.not _); [simpl; lia |].
  destruct (JS.truthy _); [simpl; lia |].
  destruct outcome; [| simpl; lia].
  destruct reload; simpl; lia.
Qed.

(** C3, counterexample.  The calendar is connected and the meeting is not
    synced.  The first invocation pushes and the push is rejected; the flag
    stays false, so the second invocation pushes again and is not rejected:
    two push attempts.  Also, for a meeting whose flag is true and a user
    whose calendar is not connected, the trigger asks to connect the calendar
    and does not report that the meeting is already synced. *)
Lemma rejected_push_is_repeated :
  let m := {| calendar_synced := JS.Bool false; dated_events := Some [];
              notes := Some []; other := ∅ |} in
  let m' := {| calendar_synced := JS.Bool true; dated_events := Some [];
               notes := Some []; other := ∅ |} in
  let st := {| meeting := Some m;
               user := Some {| calendar_connected := JS.Bool true |};
               syncing := false |} in
  let r1 := handleSyncCalendar "job-1" (sync_rejected JS.Undefined) None st in
  let r2 := handleSyncCalendar "job-1" sync_resolved (Some m') r1.1 in
  let st0 := {| meeting := Some m';
                user := Some {| calendar_connected := JS.Bool false |};
                syncing := false |} in
  r1.2 = [api_syncToCalendar "job-1";
          log (console_error "Calendar sync failed:");
          alert msg_sync_failed] /\
  r2.2 = [api_syncToCalendar "job-1"; alert msg_synced;
          api_getMeetingDetails "job-1"] /\
  pushes (r1.2 ++ r2.2) = 2 /\
  handleSyncCalendar "job-1" sync_resolved (Some m') st0 =
    (st0, [alert msg_connect_first]).
Proof. vm_compute. repeat split; reflexivity. Qed.

(** C3, as the code has it.  For every meeting whose [calendar_synced] flag
    is true the trigger sends no push request and leaves the state as it is,
    and when the user's calendar is connected it reports that the meeting is
    already synced.  No invocation pushes more than once.  When the first of
    two invocations pushes successfully and the meeting then reloaded carries
    a true flag, the second invocation is rejected with that report, so the
    two together push exactly once.  After a rejected push the meeting and its
    flag are what they were, and a second invocation pushes again: the two
    together push twice. *)
Theorem sync_guard :
  (forall jobId outcome reload st,
      JS.truthy (meeting_synced st) = true ->
      pushes (handleSyncCalendar jobId outcome reload st).2 = 0 /\
      (handleSyncCalendar jobId outcome reload st).1 = st) /\
  (forall jobId outcome reload st,
      JS.truthy (meeting_synced st) = true ->
      JS.truthy (user_connected st) = true ->
      handleSyncCalendar jobId outcome reload st = (st, [alert msg_already_synced])) /\
  (forall jobId outcome reload st,
      pushes (handleSyncCalendar jobId outcome reload st).2 <= 1) /\
  (forall jobId outcome2 reload2 st m',
      JS.truthy (user_connected st) = true ->
      JS.truthy (meeting_synced st) = false ->
      JS.truthy (calendar_synced m') = true ->
      let r1 := handleSyncCalendar jobId sync_resolved (Some m') st in
      let r2 := handleSyncCalendar jobId outcome2 reload2 r1.1 in
      pushes r1.2 = 1 /\
      r2 = (r1.1, [alert msg_already_synced]) /\
      pushes (r1.2 ++ r2.2) = 1) /\
  (forall jobId detail reload1 outcome2 reload2 st,
      JS.truthy (user_connected st) = true ->
      JS.truthy (meeting_synced st) = false ->
      let r1 := handleSyncCalendar jobId (sync_rejected detail) reload1 st in
      let r2 := handleSyncCalendar jobId outcome2 reload2 r1.1 in
      pushes r1.2 = 1 /\
      meeting r1.1 = meeting st /\
      JS.truthy (meeting_synced r1.1) = false /\
      pushes r2.2 = 1 /\
      pushes (r1.2 ++ r2.2) = 2).
Proof.
  repeat apply conj.
  - intros jobId outcome reload st Hs. unfold handleSyncCalendar.
    destruct (JS.not _); [now split |]. rewrite Hs. now split.
  - intros jobId outcome reload st Hs Hc. unfold handleSyncCalendar, JS.not.
    now rewrite Hc, Hs.
  - apply pushes_le_one.
  - intros jobId outcome2 reload2 st m' Hc Hs Hm'.
    assert (H1 : handleSyncCalendar jobId sync_resolved (Some m') st =
                 ({| meeting := Some m'; user := user st; syncing := false |},
                  [api_syncToCalendar jobId; alert msg_synced;
                   api_getMeetingDetails jobId])).
    { unfold handleSyncCalendar, JS.not. now rewrite Hc, Hs. }
    cbv zeta. rewrite H1. cbn [fst snd].
    assert (H2 : handleSyncCalendar jobId outcome2 reload2
                   {| meeting := Some m'; user := user st; syncing := false |} =
                 ({| meeting := Some m'; user := user st; syncing := false |},
                  [alert msg_already_synced])).
    { unfold handleSyncCalendar, JS.not, user_connected, meeting_synced in *.
      cbn [user meeting]. now rewrite Hc, Hm'. }
    rewrite H2. repeat split.
  - intros jobId detail reload1 outcome2 reload2 st Hc Hs.
    assert (H1 : handleSyncCalendar jobId (sync_rejected detail) reload1 st =
                 ({| meeting := meeting st; user := user st; syncing := false |},
                  [api_syncToCalendar jobId;
                   log (console_error "Calendar sync failed:");
                   alert (detail ||| msg_sync_failed)])).
    { unfold handleSyncCalendar, JS.not. now rewrite Hc, Hs. }
    cbv zeta. rewrite H1. cbn [fst snd].
    assert (H2 : pushes (handleSyncCalendar jobId outcome2 reload2
                   {| meeting := meeting st; user := user st; syncing := false |}).2 = 1).
    { unfold handleSyncCalendar, JS.not, user_connected, meeting_synced in *.
      cbn [user meeting]. rewrite Hc, Hs. cbn [negb].
      destruct outcome2; [destruct reload2 |]; reflexivity. }
    split; [reflexivity |]. split; [reflexivity |]. split; [exact Hs |].
    split; [exact H2 |].
    unfold pushes in *. rewrite List.filter_app, length_app, H2. reflexivity.
Qed.

(** A connected user syncs an unsynced meeting; the reload shows the flag set
    and a second invocation is rejected. *)
Lemma sync_guard_witness :
  let m := {| calendar_synced := JS.Bool false; dated_events := Some [];
              notes := Some []; other := ∅ |} in
  let m' := {| calendar_synced := JS.Bool true; dated_events := Some [];
               notes := Some []; other := ∅ |} in
  let st := {| meeting := Some m;
               user := Some {| calendar_connected := JS.Bool true |};
               syncing := false |} in
  let r1 := handleSyncCalendar "job-1" sync_resolved (Some m') st in
  let r2 := handleSyncCalendar "job-1" sync_resolved (Some m') r1.1 in
  pushes r1.2 = 1 /\ r2 = (r1.1, [alert msg_already_synced]) /\
  pushes (r1.2 ++ r2.2) = 1.
Proof.
  intros m m' st.
  apply (proj1 (proj2 (proj2 (proj2 sync_guard)))); reflexivity.
Defined.

End Sync.

(** ** Submitting with "only process additional analysis" *)

Section Submit.

Import DashboardPage.

Lemma trimStart_blank s : blank s -> trimStart s = [].
Proof.
  induction 1 as [| c s Hc _ IH]; simpl; [reflexivity |]. now rewrite Hc.
Qed.

Lemma trimStart_nil_blank s : trimStart s = [] -> blank s.
Proof.
  induction s as [| c s IH]; simpl; [constructor |].
  destruct (is_whitespace c) eqn:Hc; [| discriminate].
  intros H. unfold blank. constructor; [exact Hc | exact (IH H)].
Qed.

Lemma trimStart_head s c s' : trimStart s = c :: s' -> is_whitespace c = false.
Proof.
  induction s as [| x s IH]; simpl; [discriminate |].
  destruct (is_whitespace x) eqn:Hx; [apply IH |].
  now intros [= <- _].
Qed.

Lemma trim_blank s : is_empty (trim s) = true <-> blank s.
Proof.
  unfold trim. split.
  - intros H.
    destruct (rev (trimStart (rev (trimStart s)))) as [| ? ?] eqn:Hr; [| discriminate].
    apply (f_equal (@rev N)) in Hr. rewrite rev_involutive in Hr. simpl in Hr.
    apply trimStart_nil_blank in Hr.
    destruct (trimStart s) as [| c s'] eqn:Hs; [now apply trimStart_nil_blank |].
    apply trimStart_head in Hs.
    assert (Hin : In c (rev (c :: s'))) by (apply in_rev; rewrite rev_involutive; now left).
    unfold blank in Hr. rewrite Forall_forall in Hr.
    specialize (Hr c (proj2 (list_elem_of_In _ _) Hin)). congruence.
  - intros H. now rewrite (trimStart_blank _ H).
Qed.

(** C4 (fail-fast validation).  With [custom_field_only] set and a
    [user_input] that is empty or white space only, [handleUpload] and
    [uploadRecording] leave the page state as it was (no job id is recorded,
    the page does not enter the processing state) and emit neither the upload
    request nor the start of polling; whenever there is audio to submit, what
    they emit is exactly the alert that asks for a question.  (With nothing to
    submit both handlers return before the check, silently.) *)
Theorem custom_only_requires_question
    (now : Z) (upload : option string) (config : ProcessingConfig) (st : State) :
  custom_field_only config = true ->
  blank (user_input config) ->
  ((handleUpload upload config st).1 = st /\
   quiet (handleUpload upload config st).2 /\
   (forall f, file st = Some f ->
      handleUpload upload config st = (st, [alert guard_message]))) /\
  ((uploadRecording now upload config st).1 = st /\
   quiet (uploadRecording now upload config st).2 /\
   (forall blob, recordedAudio st = Some blob ->
      uploadRecording now upload config st = (st, [alert guard_message]))).
Proof.
  intros Hc Hb. apply trim_blank in Hb.
  unfold handleUpload, uploadRecording. rewrite Hc, Hb. simpl andb.
  split.
  - destruct (file st) as [f|]; repeat split; try congruence.
    + intros e ->%list_elem_of_singleton. exact I.
    + intros e ?%not_elem_of_nil. contradiction.
  - destruct (recordedAudio st) as [b|]; repeat split; try congruence.
    + intros e ->%list_elem_of_singleton. exact I.
    + intros e ?%not_elem_of_nil. contradiction.
Qed.

(** A selected file, the option set, and a question made of a space, a tab
    and a no-break space. *)
Lemma custom_only_requires_question_witness :
  let config :=
    {| role := "manager";
       output_fields := {| transcript := true; summary_english := true;
                           summary_arabic := false; action_items := true;
                           deadlines := true; calendar_sync := true;
                           budget_notes := true; decisions := true;
                           general_notes := true |};
       user_input := [32; 9; 160]%N;
       custom_field_only := true |} in
  let st := {| file := Some "meeting.mp3"; recordedAudio := None;
               processing := false; status := ""; progress := 0; jobId := None |} in
  handleUpload (Some "job-1") config st = (st, [alert guard_message]).
Proof.
  intros config st.
  refine (proj2 (proj2 (proj1
    (custom_only_requires_question 0 (Some "job-1") config st _ _))) "meeting.mp3" _).
  - reflexivity.
  - repeat constructor.
  - reflexivity.
Defined.

(** The guard is the only thing that holds a submission back: with audio
    selected and either the option off or a question that is not blank, the
    upload request is sent. *)
Lemma submission_goes_through upload config st f :
  file st = Some f ->
  custom_field_only config = false \/ ~ blank (user_input config) ->
  api_uploadAudio (selected_file f) config ∈ (handleUpload upload config st).2.
Proof.
  intros Hf Hg. unfold handleUpload. rewrite Hf.
  assert (Hoff : custom_field_only config && is_empty (trim (user_input config)) = false).
  { destruct Hg as [-> | Hnb]; [reflexivity |].
    destruct (is_empty _) eqn:He; [| apply andb_false_r].
    now apply trim_blank in He. }
  rewrite Hoff. unfold submit.
  destruct upload; simpl; apply list_elem_of_In; simpl; auto.
Qed.

End Submit.

(** ** Where urgency is normalised *)

(** C5, counterexample.  The read sites do reproduce the three-valued
    mapping.  Handed a note whose urgency is the legacy 'medium', the tasks
    page builds a record that still carries 'medium', which is neither 'yes'
    nor 'no', and it applies the mapping to it when it sorts and when it
    draws the row, as do the notes cards and the dashboard. *)
Lemma legacy_urgency_reaches_the_readers :
  let item :=
    {| id := 3; event_type := "notes";
       event_data := RawValue (DObj {[ "title" := JS.Str "Budget";
                                       "urgency" := JS.Str "medium" ]}) |} in
  let meeting :=
    {| job_id := "job-1"; created_at := JS.Str "2025-01-01T00:00:00Z";
       final_summary := RawValue (DObj ∅); events := Some [item] |} in
  let tasks := (TasksPage.fetchTasks strict_lib [meeting]).1 in
  let notes := (NotesPage.fetchNotes strict_lib [meeting]).1 in
  map TasksPage.urgency tasks = [JS.Str "medium"] /\
  JS.Str "medium" <> JS.Str "yes" /\ JS.Str "medium" <> JS.Str "no" /\
  map TasksPage.level tasks = ["yes"] /\
  map TasksPage.isUrgent tasks = [true] /\
  map NotesPage.urgency notes = [JS.Str "medium"] /\
  map NotesPage.isUrgent notes = [true] /\
  shows_urgent DashboardTasks (JS.Str "medium") = true.
Proof. vm_compute. repeat split; try reflexivity; discriminate. Qed.

(** C5, as the code has it.  The read sites reproduce the mapping, whatever
    the writer does.  The events, calendar, notes and tasks pages copy the
    urgency they receive into their records unchanged, and the dashboard only
    replaces a falsy value by 'no'.  Every read site then applies one and the
    same mapping to it, whose result is always 'yes' or 'no'; applied to a
    value that is already 'yes' or 'no' the mapping returns it unchanged. *)
Theorem urgency_is_normalised_on_read (L : Lib) :
  (forall meeting eventItem e,
      e ∈ (EventsPage.processItem L meeting eventItem).1 ->
      EventsPage.urgency e = stored_urgency L eventItem) /\
  (forall meeting eventItem e,
      e ∈ (CalendarPage.processItem L meeting eventItem).1 ->
      CalendarPage.urgency e = stored_urgency L eventItem) /\
  (forall meeting finalSummary done eventItem n,
      n ∈ (NotesPage.processItem L meeting finalSummary done eventItem).1 ->
      NotesPage.urgency n = stored_urgency L eventItem) /\
  (forall meeting eventItem t,
      t ∈ (TasksPage.processItem L meeting eventItem).1 ->
      TasksPage.urgency t = stored_urgency L eventItem) /\
  (forall now meeting eventItem e,
      e ∈ (DashboardPage.processItem L now meeting eventItem).1 ->
      DashboardPage.urgency e = stored_urgency L eventItem ||| JS.Str "no") /\
  (forall site site' stored, read_back site stored = read_back site' stored) /\
  (forall site stored, read_back site stored = "yes" \/ read_back site stored = "no") /\
  (forall site site' stored,
      read_back site (JS.Str (read_back site' stored)) = read_back site' stored).
Proof.
  repeat apply conj.
  - apply events_keep_stored.
  - apply calendar_keeps_stored.
  - apply notes_keep_stored.
  - apply tasks_keep_stored.
  - apply dashboard_keeps_stored.
  - intros site site' stored. now rewrite !read_back_spec.
  - intros site stored. rewrite read_back_spec. apply urgency_two_valued.
  - intros site site' stored. rewrite !read_back_spec.
    destruct (urgency_two_valued stored) as [-> | ->]; reflexivity.
Qed.

(** A stored note with the legacy urgency 'medium', fetched by the tasks
    page. *)
Lemma urgency_is_normalised_on_read_witness :
  let d : obj := {[ "title" := JS.Str "Budget"; "urgency" := JS.Str "medium" ]} in
  let item := {| id := 3; event_type := "notes"; event_data := RawValue (DObj d) |} in
  let meeting :=
    {| job_id := "job-1"; created_at := JS.Str "2025-01-01T00:00:00Z";
       final_summary := RawValue (DObj ∅); events := Some [item] |} in
  TasksPage.urgency (TasksPage.task_of strict_lib meeting item d) =
  stored_urgency strict_lib item.
Proof.
  intros d item meeting.
  apply (proj1 (proj2 (proj2 (proj2 (urgency_is_normalised_on_read strict_lib))))
           meeting item).
  vm_compute. constructor.
Defined.

(** ** Historical field names *)

Section Aliases.

(** C8, counterexample.  A dated event is stored under the historical names
    [due_date] and [context] and also carries a [formatted_date].  The detail
    page and the export display the formatted date, not [due_date]; the task
    built from the item has no description, since the tasks page falls back to
    [details] and not to [context]; the events page, which reads [date] only,
    passes the item over. *)
Lemma historical_names_are_not_honoured_everywhere :
  let d : obj := {[ "title" := JS.Str "Send invoice";
                    "due_date" := JS.Str "2025-01-05";
                    "formatted_date" := JS.Str "Jan 5, 2025";
                    "context" := JS.Str "agreed with finance" ]} in
  let item := {| id := 4; event_type := "dated_events"; event_data := RawValue (DObj d) |} in
  let meeting :=
    {| job_id := "job-1"; created_at := JS.Str "2025-01-01T00:00:00Z";
       final_summary := RawValue (DObj ∅); events := Some [item] |} in
  d.["date"] = JS.Undefined /\ d.["description"] = JS.Undefined /\
  MeetingDetailPage.shown_date d = JS.Str "Jan 5, 2025" /\
  ExportLib.shown_date d = JS.Str "Jan 5, 2025" /\
  map TasksPage.description (TasksPage.fetchTasks strict_lib [meeting]).1
    = [JS.Undefined] /\
  EventsPage.fetchEvents strict_lib [meeting] = ([], []).
Proof. vm_compute. repeat split; reflexivity. Qed.

Ltac alias_cases :=
  unfold JS.or, JS.not;
  repeat match goal with
         | H : JS.truthy ?x = _ |- context [JS.truthy ?x] => rewrite H; cbv iota
         end;
  try reflexivity.

(** C8, as the code has it.  On the meeting detail page and in the PDF export
    the date of a dated event is [date], or [due_date] when [date] is absent
    or empty; it is what is displayed (or 'TBD' when both are missing) unless
    the record has a [formatted_date], which is displayed instead.  The
    description of a dated event is [description], else [context]; that of a
    note is [description], else [details]; the category of a note is
    [category], else [note_type], else 'GENERAL'.  The tasks page falls back
    from [description] to [details] and from [category] to [note_type].
    Fields other than the ones read change nothing.  Each rule is stated on
    both sides: what is read when the first name is absent or empty, and that
    the first name is the one read when it is present. *)
Theorem field_aliasing (L : Lib) :
  (forall event : obj,
      JS.truthy event.["date"] = false ->
      MeetingDetailPage.event_date event = event.["due_date"] /\
      (JS.truthy event.["formatted_date"] = false ->
       MeetingDetailPage.shown_date event = event.["due_date"] ||| JS.Str "TBD" /\
       ExportLib.shown_date event = event.["due_date"] ||| JS.Str "TBD")) /\
  (forall event : obj,
      JS.truthy event.["formatted_date"] = true ->
      MeetingDetailPage.shown_date event = event.["formatted_date"] /\
      ExportLib.shown_date event = event.["formatted_date"]) /\
  (forall event : obj,
      JS.truthy event.["description"] = false ->
      MeetingDetailPage.event_description event = event.["context"] /\
      ExportLib.event_description event = event.["context"]) /\
  (forall note : obj,
      JS.truthy note.["description"] = false ->
      MeetingDetailPage.note_description note = note.["details"] /\
      ExportLib.note_description note = note.["details"]) /\
  (forall note : obj,
      JS.truthy note.["category"] = false ->
      MeetingDetailPage.note_category note = note.["note_type"] ||| JS.Str "GENERAL" /\
      ExportLib.note_category note = note.["note_type"] ||| JS.Str "GENERAL") /\
  (forall meeting eventItem (d : obj),
      (JS.truthy d.["description"] = false ->
       TasksPage.description (TasksPage.task_of L meeting eventItem d) = d.["details"]) /\
      (JS.truthy d.["category"] = false ->
       TasksPage.category (TasksPage.task_of L meeting eventItem d) = d.["note_type"])) /\
  (forall (event : obj) k v,
      k ∉ event_fields ->
      MeetingDetailPage.render_event (<[k := v]> event) =
      MeetingDetailPage.render_event event /\
      ExportLib.shown_date (<[k := v]> event) = ExportLib.shown_date event) /\
  (forall meeting eventItem (d : obj) k v,
      k ∉ task_fields ->
      TasksPage.task_of L meeting eventItem (<[k := v]> d) =
      TasksPage.task_of L meeting eventItem d) /\
  (forall event : obj,
      JS.truthy event.["date"] = true ->
      MeetingDetailPage.event_date event = event.["date"] /\
      (JS.truthy event.["formatted_date"] = false ->
       MeetingDetailPage.shown_date event = event.["date"] /\
       ExportLib.shown_date event = event.["date"])) /\
  (forall event : obj,
      JS.truthy event.["description"] = true ->
      MeetingDetailPage.event_description event = event.["description"] /\
      ExportLib.event_description event = event.["description"]) /\
  (forall note : obj,
      JS.truthy note.["description"] = true ->
      MeetingDetailPage.note_description note = note.["description"] /\
      ExportLib.note_description note = note.["description"]) /\
  (forall note : obj,
      JS.truthy note.["category"] = true ->
      MeetingDetailPage.note_category note = note.["category"] /\
      ExportLib.note_category note = note.["category"]) /\
  (forall meeting eventItem (d : obj),
      (JS.truthy d.["description"] = true ->
       TasksPage.description (TasksPage.task_of L meeting eventItem d) = d.["description"]) /\
      (JS.truthy d.["category"] = true ->
       TasksPage.category (TasksPage.task_of L meeting eventItem d) = d.["category"])).
Proof.
  repeat apply conj.
  - intros event Hd. split.
    + unfold MeetingDetailPage.event_date. alias_cases.
    + intros Hf.
      unfold MeetingDetailPage.shown_date, MeetingDetailPage.event_formattedDate,
        MeetingDetailPage.event_date, ExportLib.shown_date, ExportLib.event_date.
      split; alias_cases.
  - intros event Hf.
    unfold MeetingDetailPage.shown_date, MeetingDetailPage.event_formattedDate,
      ExportLib.shown_date, ExportLib.event_date.
    split; alias_cases.
  - intros event Hd.
    unfold MeetingDetailPage.event_description, ExportLib.event_description.
    split; alias_cases.
  - intros note Hd.
    unfold MeetingDetailPage.note_description, ExportLib.note_description.
    split; alias_cases.
  - intros note Hc.
    unfold MeetingDetailPage.note_category, ExportLib.note_category.
    split; alias_cases.
  - intros meeting eventItem d. split; intros H; simpl; alias_cases.
  - intros event k v Hk.
    assert (Hget : forall f, f ∈ event_fields -> (<[k := v]> event).[f] = event.[f]).
    { intros f Hf. apply get_insert_ne. intros ->. contradiction. }
    unfold MeetingDetailPage.render_event, MeetingDetailPage.event_title,
      MeetingDetailPage.shown_date, MeetingDetailPage.event_formattedDate,
      MeetingDetailPage.event_date, MeetingDetailPage.shown_assignee,
      MeetingDetailPage.event_description, ExportLib.shown_date, ExportLib.event_date.
    rewrite !Hget by (unfold event_fields; set_solver). now split.
  - intros meeting eventItem d k v Hk.
    assert (Hget : forall f, f ∈ task_fields -> (<[k := v]> d).[f] = d.[f]).
    { intros f Hf. apply get_insert_ne. intros ->. contradiction. }
    unfold TasksPage.task_of.
    rewrite !Hget by (unfold task_fields; set_solver). reflexivity.
  - intros event Hd. split.
    + unfold MeetingDetailPage.event_date. alias_cases.
    + intros Hf.
      unfold MeetingDetailPage.shown_date, MeetingDetailPage.event_formattedDate,
        MeetingDetailPage.event_date, ExportLib.shown_date, ExportLib.event_date.
      split; alias_cases.
  - intros event Hd.
    unfold MeetingDetailPage.event_description, ExportLib.event_description.
    split; alias_cases.
  - intros note Hd.
    unfold MeetingDetailPage.note_description, ExportLib.note_description.
    split; alias_cases.
  - intros note Hc.
    unfold MeetingDetailPage.note_category, ExportLib.note_category.
    split; alias_cases.
  - intros meeting eventItem d. split; intros H; simpl; alias_cases.
Qed.

(** The record of the counterexample without its formatted date: the date
    displayed is [due_date]. *)
Lemma field_aliasing_witness :
  let event : obj := {[ "title" := JS.Str "Send invoice";
                        "due_date" := JS.Str "2025-01-05";
                        "context" := JS.Str "agreed with finance" ]} in
  MeetingDetailPage.shown_date event = JS.Str "2025-01-05" /\
  ExportLib.shown_date event = JS.Str "2025-01-05".
Proof.
  intros event.
  refine (proj2 (proj1 (field_aliasing strict_lib) event _) _); reflexivity.
Defined.

End Aliases.

(** ** Toggling completion *)

Section Toggle.

Lemma events_mark_lookup events target b i :
  EventsPage.mark events target b !! i =
  (fun e => if String.eqb (EventsPage.ev_id e) target
            then EventsPage.with_completed e b else e) <$> events !! i.
Proof. unfold EventsPage.mark. apply list_lookup_fmap. Qed.

Lemma events_toggle_cases api_ok events event :
  (EventsPage.handleToggleCompletion api_ok events event).1 = events \/
  (EventsPage.handleToggleCompletion api_ok events event).1 =
    EventsPage.mark events (EventsPage.ev_id event) (JS.not (EventsPage.completed event)).
Proof.
  unfold EventsPage.handleToggleCompletion.
  destruct (EventsPage.eventItemId event) as [n|]; [| now left].
  destruct (n =? 0)%Z; [now left |].
  destruct api_ok; [now right | now left].
Qed.

Lemma detail_mark_lookup (ns : list obj) noteId b i :
  map (fun note : obj => if JS.eqn note.["id"] noteId
                         then MeetingDetailPage.with_completed note b else note) ns !! i =
  (fun note : obj => if JS.eqn note.["id"] noteId
                     then MeetingDetailPage.with_completed note b else note) <$> ns !! i.
Proof. apply list_lookup_fmap. Qed.

(** C9 (toggle-completion frame).  On the events page the handler returns a
    list of the same length in which every event whose id differs from the
    target's is unchanged at its position, and every event with the target's
    id keeps all its fields except [completed], which becomes the negation of
    the target's current value when the request succeeds.  On the meeting
    detail page the handler leaves the sync flag, the dated events and the
    other fields of the meeting alone, and in the notes it changes, at most,
    the [completed] field of the notes whose id is the target id. *)
Theorem toggle_completion_frame :
  (forall api_ok events event,
      let events' := (EventsPage.handleToggleCompletion api_ok events event).1 in
      length events' = length events /\
      forall i e, events !! i = Some e ->
        exists e', events' !! i = Some e' /\
          same_but_completed e e' /\
          (EventsPage.ev_id e <> EventsPage.ev_id event -> e' = e) /\
          (e' = e \/
           EventsPage.completed e' = JS.Bool (JS.not (EventsPage.completed event)))) /\
  (forall api_ok noteId currentCompleted prev meeting',
      (MeetingDetailPage.handleToggleCompletion api_ok noteId currentCompleted prev).1
        = Some meeting' ->
      MeetingDetailPage.calendar_synced meeting' = MeetingDetailPage.calendar_synced prev /\
      MeetingDetailPage.dated_events meeting' = MeetingDetailPage.dated_events prev /\
      MeetingDetailPage.other meeting' = MeetingDetailPage.other prev /\
      (api_ok = false -> meeting' = prev) /\
      (forall ns, MeetingDetailPage.notes prev = Some ns ->
         exists ns', MeetingDetailPage.notes meeting' = Some ns' /\
           length ns' = length ns /\
           forall i (note : obj), ns !! i = Some note ->
             exists note' : obj, ns' !! i = Some note' /\
               (JS.eqn note.["id"] noteId = false -> note' = note) /\
               (forall k, k <> "completed" -> note' !! k = note !! k) /\
               (note' = note \/ note'.["completed"] = JS.Bool (JS.not currentCompleted)))).
Proof.
  split.
  - intros api_ok events event events'. subst events'.
    destruct (events_toggle_cases api_ok events event) as [-> | ->].
    + split; [reflexivity |]. intros i e He. exists e.
      repeat split; auto.
    + split; [unfold EventsPage.mark; apply length_map |].
      intros i e He. rewrite events_mark_lookup, He. simpl.
      destruct (String.eqb_spec (EventsPage.ev_id e) (EventsPage.ev_id event)) as [Heq | Hne].
      * eexists. split; [reflexivity |].
        repeat split; auto. intros Hne. contradiction.
      * exists e. repeat split; auto.
  - intros api_ok noteId currentCompleted prev meeting'.
    unfold MeetingDetailPage.handleToggleCompletion.
    destruct api_ok; cbn [fst].
    + unfold MeetingDetailPage.mark.
      destruct (MeetingDetailPage.notes prev) as [ns|] eqn:Hns; [| discriminate].
      intros [= <-]. cbn. repeat split; try discriminate.
      intros ns0 [= <-]. eexists. split; [reflexivity |].
      split; [apply length_map |].
      intros i note Hi. rewrite detail_mark_lookup, Hi. simpl.
      destruct (JS.eqn note.["id"] noteId) eqn:Hid.
      * eexists. split; [reflexivity |]. repeat split.
        -- discriminate.
        -- intros k Hk. unfold MeetingDetailPage.with_completed.
           now rewrite lookup_insert_ne.
        -- right. apply get_insert_eq.
      * exists note. repeat split; auto.
    + intros [= <-]. repeat split; auto.
      intros ns Hns. exists ns. repeat split; auto.
      intros i note Hi. exists note. repeat split; auto.
Qed.

(** Two notes, of which the second is the target. *)
Lemma toggle_completion_frame_witness :
  let n1 : obj := {[ "id" := JS.Num 1; "title" := JS.Str "Decide on vendor";
                     "completed" := JS.Bool false ]} in
  let n2 : obj := {[ "id" := JS.Num 2; "title" := JS.Str "Budget approval";
                     "completed" := JS.Bool false ]} in
  let n2' : obj := <[ "completed" := JS.Bool true ]> n2 in
  let prev := {| MeetingDetailPage.calendar_synced := JS.Bool false;
                 MeetingDetailPage.dated_events := Some [];
                 MeetingDetailPage.notes := Some [n1; n2];
                 MeetingDetailPage.other := ∅ |} in
  let meeting' := {| MeetingDetailPage.calendar_synced := JS.Bool false;
                     MeetingDetailPage.dated_events := Some [];
                     MeetingDetailPage.notes := Some [n1; n2'];
                     MeetingDetailPage.other := ∅ |} in
  (MeetingDetailPage.handleToggleCompletion true 2 (JS.Bool false) prev).1
    = Some meeting' /\
  MeetingDetailPage.dated_events meeting' = MeetingDetailPage.dated_events prev /\
  exists ns', MeetingDetailPage.notes meeting' = Some ns' /\ length ns' = 2.
Proof.
  intros n1 n2 n2' prev meeting'.
  assert (Hrun : (MeetingDetailPage.handleToggleCompletion true 2 (JS.Bool false) prev).1
                 = Some meeting') by (vm_compute; reflexivity).
  destruct (proj2 toggle_completion_frame true 2%Z (JS.Bool false) prev meeting' Hrun)
    as (_ & Hd & _ & _ & Hn).
  destruct (Hn [n1; n2] eq_refl) as (ns' & Hns' & Hlen & _).
  split; [exact Hrun |]. split; [exact Hd |]. exists ns'. split; [exact Hns' | exact Hlen].
Defined.

End Toggle.

(** ** Progress shown while polling *)

Section Progress.

Import DashboardPage JobPolling.

(** C7, counterexample.  Two polls are sent while the job is processing; the
    server reports 30 and then 50, a non-decreasing sequence.  The second
    response arrives first: the page shows 50 and then 30. *)
Lemma late_response_lowers_progress :
  let es := [tick (Some (processing_at 30)); tick (Some (processing_at 50));
             settle 1; settle 0] in
  let p := run "job-1" (start idle) es in
  observed es = [30; 50]%Z /\
  shown p = [50; 30]%Z /\
  progress (page p) = 30%Z /\
  interval_active p = true.
Proof. vm_compute. repeat split; reflexivity. Qed.

Lemma on_response_progress id r st :
  progress (on_response id (Some r) st).1.1 = overall_progress r.
Proof.
  unfold on_response.
  destruct (sd_status r === "completed"); [reflexivity |].
  destruct (sd_status r === "failed"); reflexivity.
Qed.

Lemma on_response_non_terminal id r st :
  non_terminal r = true -> (on_response id (Some r) st).1.2 = false.
Proof.
  unfold non_terminal, on_response.
  destruct (sd_status r === "completed"); [discriminate |].
  destruct (sd_status r === "failed"); [discriminate | reflexivity].
Qed.

Lemma step_tick_settle id p a :
  interval_active p = true ->
  inflight p = [] ->
  step id (step id p (tick a)) (settle 0) =
  let '(st, cleared, effs) := on_response id a (page p) in
  {| page := st;
     interval_active := negb cleared;
     inflight := [];
     shown := match a with
              | Some _ => (shown p ++ [progress st])%list
              | None => shown p
              end;
     emitted := ((emitted p ++ [api_getJobStatus id]) ++ effs)%list |}.
Proof.
  destruct p as [pg act fl sh em]. simpl. intros -> ->. simpl.
  now destruct (on_response id a pg) as [[st cleared] effs].
Qed.

Lemma run_one_at_a_time id answers p :
  interval_active p = true ->
  inflight p = [] ->
  all_non_terminal answers ->
  let p' := run id p (one_at_a_time answers) in
  shown p' = (shown p ++ omap reported answers)%list /\
  interval_active p' = true /\ inflight p' = [].
Proof.
  intros Ha Hi Hnt. revert p Ha Hi.
  induction Hnt as [| a answers Hnt_a _ IH]; intros p Ha Hi; cbn zeta.
  - simpl. now rewrite app_nil_r.
  - unfold one_at_a_time, run in *. cbn [flat_map app fold_left].
    rewrite (step_tick_settle id p a Ha Hi).
    destruct (on_response id a (page p)) as [[st cleared] effs] eqn:Hr.
    destruct a as [r|].
    + pose proof (on_response_progress id r (page p)) as Hp.
      pose proof (on_response_non_terminal id r (page p) Hnt_a) as Hc.
      rewrite Hr in Hp, Hc. cbn [fst snd] in Hp, Hc. subst cleared.
      match goal with |- context [fold_left _ _ ?q] => destruct (IH q) as (Hs & Ha' & Hi') end;
        [reflexivity | reflexivity |].
      repeat split; auto.
      rewrite Hs. cbn [shown omap list_omap reported fmap option_fmap option_map].
      rewrite Hp, <- app_assoc. reflexivity.
    + unfold on_response in Hr. injection Hr as <- <- <-.
      match goal with |- context [fold_left _ _ ?q] => destruct (IH q) as (Hs & Ha' & Hi') end;
        [reflexivity | reflexivity |].
      repeat split; auto.
Qed.

(** C7, as the code has it.  The page shows, after each status response it
    handles, the [overall_progress] of that response.  When every response is
    handled before the next poll is sent and the job is not terminal in any
    of them, the values shown are the values the server reported, in the same
    order; the displayed progress is then non-decreasing whenever the
    reported values are. *)
Theorem shown_progress_follows_responses (id : string) (st : State)
    (answers : list (option StatusData)) :
  all_non_terminal answers ->
  let p := run id (start st) (one_at_a_time answers) in
  shown p = omap reported answers /\
  shown p = observed (one_at_a_time answers) /\
  (StronglySorted Z.le (omap reported answers) -> StronglySorted Z.le (shown p)).
Proof.
  intros Hnt p.
  destruct (run_one_at_a_time id answers (start st) eq_refl eq_refl Hnt) as (Hs & _ & _).
  fold p in Hs. simpl in Hs. split; [exact Hs |]. split.
  - rewrite Hs. clear. induction answers as [| a answers IH]; [reflexivity |].
    unfold one_at_a_time, observed in *. cbn [flat_map app omap list_omap].
    rewrite <- IH. now destruct a.
  - now rewrite Hs.
Qed.

(** Three polls answered 10, 40, 40, each handled before the next is sent. *)
Lemma shown_progress_follows_responses_witness :
  let answers := [Some (processing_at 10); Some (processing_at 40);
                  Some (processing_at 40)] in
  shown (run "job-1" (start idle) (one_at_a_time answers)) = [10; 40; 40]%Z.
Proof.
  intros answers.
  refine (proj1 (shown_progress_follows_responses "job-1" idle answers _)).
  repeat constructor.
Defined.

End Progress.

(* ===================================================================== *)
(** * Part III.  Further properties of the pages                          *)
(* ===================================================================== *)

(** ** When the upload request is sent *)

Section UploadSent.

Import DashboardPage.

(** X2.  [handleUpload] sends an upload request exactly when a file is
    selected and the guard does not apply, that is when "only process
    additional analysis" is off or the question is not blank; the request
    then carries the selected file and the configuration unchanged. *)
Theorem upload_request_sent_iff upload config st audio config' :
  api_uploadAudio audio config' ∈ (handleUpload upload config st).2 <->
  (exists f, file st = Some f /\ audio = selected_file f) /\
  config' = config /\
  (custom_field_only config = false \/ ~ blank (user_input config)).
Proof.
  unfold handleUpload.
  destruct (file st) as [f|]; simpl.
  2:{ split; [intros ?%not_elem_of_nil; contradiction |].
      intros ((f & Hf & _) & _). discriminate. }
  destruct (custom_field_only config) eqn:Hc; simpl.
  - destruct (is_empty (trim (user_input config))) eqn:He.
    + split.
      * intros H%list_elem_of_singleton. discriminate.
      * intros (_ & _ & [H | H]); [discriminate |].
        apply trim_blank in He. contradiction.
    + unfold submit. split.
      * intros H. repeat split.
        -- exists f. split; [reflexivity |].
           destruct upload; apply list_elem_of_In in H; simpl in H;
             intuition congruence.
        -- destruct upload; apply list_elem_of_In in H; simpl in H;
             intuition congruence.
        -- right. intros Hb. apply trim_blank in Hb. congruence.
      * intros ((f' & [= <-] & ->) & -> & _).
        destruct upload; apply list_elem_of_In; simpl; auto.
  - unfold submit. split.
    + intros H. repeat split.
      * exists f. split; [reflexivity |].
        destruct upload; apply list_elem_of_In in H; simpl in H;
          intuition congruence.
      * destruct upload; apply list_elem_of_In in H; simpl in H;
          intuition congruence.
      * now left.
    + intros ((f' & [= <-] & ->) & -> & _).
      destruct upload; apply list_elem_of_In; simpl; auto.
Qed.

End UploadSent.

(** ** Polling ends with the job *)

Section PollingEnds.

Import DashboardPage JobPolling.

Lemma requests_app effs1 effs2 :
  requests (effs1 ++ effs2) = requests effs1 + requests effs2.
Proof. unfold requests. now rewrite List.filter_app, length_app. Qed.

Lemma on_response_no_request id response st :
  requests (on_response id response st).2 = 0.
Proof.
  unfold on_response. destruct response as [r|]; [| reflexivity].
  destruct (sd_status r === "completed"); [reflexivity |].
  destruct (sd_status r === "failed"); reflexivity.
Qed.

Lemma step_inactive id p e :
  interval_active p = false ->
  interval_active (step id p e) = false /\
  requests (emitted (step id p e)) = requests (emitted p).
Proof.
  intros Ha. destruct e as [answer | k]; simpl.
  - rewrite Ha. auto.
  - destruct (inflight p !! k) as [response|]; [| auto].
    pose proof (on_response_no_request id response (page p)) as Hn.
    destruct (on_response id response (page p)) as [[st cleared] effs].
    simpl in *. rewrite Ha, requests_app, Hn. split; [reflexivity | lia].
Qed.

Lemma run_inactive id p es :
  interval_active p = false ->
  interval_active (run id p es) = false /\
  requests (emitted (run id p es)) = requests (emitted p).
Proof.
  unfold run. revert p. induction es as [| e es IH]; intros p Ha; simpl; [auto |].
  destruct (step_inactive id p e Ha) as (Ha' & Hr).
  destruct (IH _ Ha') as (Ha'' & Hr'). split; [exact Ha'' | congruence].
Qed.

(** X3.  Once the page has handled a status response that says completed or
    failed, the interval is cleared and the page leaves the processing state;
    from then on no status request is ever sent again, whatever fires or
    settles afterwards. *)
Theorem polling_stops_after_terminal id p k r es :
  inflight p !! k = Some (Some r) ->
  non_terminal r = false ->
  let p' := step id p (settle k) in
  interval_active p' = false /\
  processing (page p') = false /\
  interval_active (run id p' es) = false /\
  requests (emitted (run id p' es)) = requests (emitted p').
Proof.
  intros Hk Hr p'.
  assert (Hp' : interval_active p' = false /\ processing (page p') = false).
  { subst p'. simpl. rewrite Hk. unfold on_response, non_terminal in *.
    destruct (sd_status r === "completed"); simpl.
    - now rewrite andb_false_r.
    - destruct (sd_status r === "failed"); simpl; [| discriminate].
      now rewrite andb_false_r. }
  destruct Hp' as (Ha & Hproc).
  destruct (run_inactive id p' es Ha) as (Ha' & Hreq). auto.
Qed.

(** A job reported at 80 % and then completed: the ticks that follow the
    completed response send nothing. *)
Lemma polling_stops_after_terminal_witness :
  let p := run "job-1" (start idle) [tick (Some (status_of "processing" 80));
                                     settle 0;
                                     tick (Some (status_of "completed" 100))] in
  let p' := step "job-1" p (settle 0) in
  let es := [tick (Some (status_of "completed" 100)); settle 0; tick None] in
  interval_active p' = false /\
  processing (page p') = false /\
  interval_active (run "job-1" p' es) = false /\
  requests (emitted (run "job-1" p' es)) = requests (emitted p').
Proof.
  intros p p' es.
  apply (polling_stops_after_terminal "job-1" p 0 (status_of "completed" 100) es);
    reflexivity.
Defined.

End PollingEnds.

(** ** Tokens: the interceptors of the API client and the provider *)

Section Tokens.

Import ApiClient.

Lemma present_Some (item : option string) :
  present item = true <-> exists s, item = Some s /\ s <> "".
Proof.
  destruct item as [s|]; simpl.
  - destruct (String.eqb_spec s ""); simpl; split.
    + discriminate.
    + intros (s' & [= <-] & Hne). contradiction.
    + intros _. eauto.
    + reflexivity.
  - split; [discriminate | intros (s & [=] & _)].
Qed.

Lemma on_request_retry window ls cfg : _retry (on_request window ls cfg) = _retry cfg.
Proof.
  unfold on_request. destruct window; [| reflexivity].
  destruct (present _); reflexivity.
Qed.

Lemma on_request_url window ls cfg : url (on_request window ls cfg) = url cfg.
Proof.
  unfold on_request. destruct window; [| reflexivity].
  destruct (present _); reflexivity.
Qed.

(** X4.  A request is sent again at most once.  Whenever the response
    interceptor settles by sending the request again, that request is marked
    as retried and keeps its URL; if it fails in turn, with whatever status,
    the interceptor rejects with that error without touching the storage and
    without another refresh request. *)
Theorem no_second_retry window refresh ls error ls' req effs :
  on_rejected window refresh ls error = (ls', resend req, effs) ->
  _retry req = true /\
  url req = url (config error) /\
  forall window' refresh' ls'' status',
    on_rejected window' refresh' ls'' {| status := status'; config := req |}
    = (ls'', reject_original, []).
Proof.
  unfold on_rejected at 1.
  destruct (_ && _); [| discriminate].
  destruct (present _); [| discriminate].
  destruct refresh as [data|]; [| destruct window; discriminate].
  intros [= _ <- _]. repeat split.
  - now rewrite on_request_retry.
  - now rewrite on_request_url.
  - intros window' refresh' ls'' status'. unfold on_rejected. cbn [config].
    rewrite on_request_retry. cbn [with_authorization with_retry _retry].
    now rewrite andb_false_r.
Qed.

(** An expired access token, a stored refresh token and a refresh that
    succeeds; the request sent again fails with 401 once more. *)
Lemma no_second_retry_witness :
  let req' := {| url := "/api/meetings"; authorization := Some "Bearer new";
                 _retry := true |} in
  let ls' : Storage := {[ "access_token" := "new"; "refresh_token" := "r2" ]} in
  _retry req' = true /\
  on_rejected true None ls' {| status := Some 401%Z; config := req' |}
  = (ls', reject_original, []).
Proof.
  intros req' ls'.
  destruct (no_second_retry true
              (Some {| access_token := "new"; refresh_token := Some "r2" |})
              {[ "access_token" := "old"; "refresh_token" := "r1" ]}
              {| status := Some 401%Z;
                 config := {| url := "/api/meetings";
                              authorization := Some "Bearer old";
                              _retry := false |} |}
              ls' req' [post_refresh "r1"]) as (H1 & _ & H3).
  - vm_compute. reflexivity.
  - split; [exact H1 | apply H3].
Defined.

(** X5.  Token rotation.  In the browser, when a request that was not yet
    retried fails with 401, a refresh token is stored and the refresh request
    succeeds, the new access token replaces the stored one, the stored
    refresh token is replaced by the new one if the answer carries one and is
    kept otherwise, no other key of the storage changes, exactly one refresh
    request is sent, carrying the stored refresh token, and the request is
    sent again with the new access token as its bearer. *)
Theorem refresh_rotates_tokens ls error data rt :
  status error = Some 401%Z ->
  _retry (config error) = false ->
  ls !! "refresh_token" = Some rt -> rt <> "" ->
  exists ls' req,
    on_rejected true (Some data) ls error = (ls', resend req, [post_refresh rt]) /\
    ls' !! "access_token" = Some (access_token data) /\
    ls' !! "refresh_token" =
      Some (if present (refresh_token data) then default "" (refresh_token data) else rt) /\
    (forall k, k <> "access_token" -> k <> "refresh_token" -> ls' !! k = ls !! k) /\
    authorization req = Some ("Bearer " +:+ access_token data) /\
    url req = url (config error).
Proof.
  intros Hs Hr Hrt Hne.
  unfold on_rejected. rewrite Hs, Hr, Hrt.
  rewrite bool_decide_eq_true_2 by reflexivity. cbn [andb negb].
  assert (Hp : present (Some rt) = true) by (apply present_Some; eauto).
  rewrite Hp. cbn [default].
  eexists _, _. split; [reflexivity |].
  destruct (present (refresh_token data)) eqn:Hn.
  - repeat split.
    + now rewrite lookup_insert_ne, lookup_insert_eq.
    + now rewrite lookup_insert_eq.
    + intros k Ha Hk. now rewrite !lookup_insert_ne.
    + unfold on_request. rewrite lookup_insert_ne, lookup_insert_eq by done.
      destruct (present (Some (access_token data))) eqn:Ha; [reflexivity |].
      reflexivity.
    + now rewrite on_request_url.
  - repeat split.
    + now rewrite lookup_insert_eq.
    + now rewrite lookup_insert_ne.
    + intros k Ha Hk. now rewrite lookup_insert_ne.
    + unfold on_request. rewrite lookup_insert_eq.
      destruct (present (Some (access_token data))) eqn:Ha; reflexivity.
    + now rewrite on_request_url.
Qed.

(** The answer of the refresh carries no new refresh token: the old one is
    kept. *)
Lemma refresh_rotates_tokens_witness :
  let ls : Storage := {[ "access_token" := "old"; "refresh_token" := "r1";
                         "theme" := "dark" ]} in
  let error := {| status := Some 401%Z;
                  config := {| url := "/api/meetings";
                               authorization := Some "Bearer old";
                               _retry := false |} |} in
  let data := {| access_token := "new"; refresh_token := None |} in
  exists ls' req,
    on_rejected true (Some data) ls error = (ls', resend req, [post_refresh "r1"]) /\
    ls' !! "access_token" = Some "new" /\
    ls' !! "refresh_token" = Some "r1" /\
    (forall k, k <> "access_token" -> k <> "refresh_token" -> ls' !! k = ls !! k) /\
    authorization req = Some "Bearer new" /\
    url req = "/api/meetings".
Proof.
  intros ls error data.
  apply (refresh_rotates_tokens ls error data "r1"); try reflexivity.
  discriminate.
Defined.

(** X6.  When the credentials cannot be renewed they are dropped.  In the
    browser, if the refresh request fails, both tokens are removed from the
    storage, no other key changes, the page is sent to /signin and the
    interceptor rejects with the error of the refresh; afterwards the request
    interceptor adds no authorization header.  When the failing response is
    not a 401, or the request was already retried, or no refresh token is
    stored, nothing is sent and the storage is left as it is. *)
Theorem failed_refresh_drops_credentials ls error :
  (forall rt,
      status error = Some 401%Z ->
      _retry (config error) = false ->
      ls !! "refresh_token" = Some rt -> rt <> "" ->
      let ls' := delete "refresh_token" (delete "access_token" ls) in
      on_rejected true None ls error =
        (ls', reject_refresh, [post_refresh rt; redirect "/signin"]) /\
      ls' !! "access_token" = None /\ ls' !! "refresh_token" = None /\
      (forall k, k <> "access_token" -> k <> "refresh_token" -> ls' !! k = ls !! k) /\
      (forall cfg, on_request true ls' cfg = cfg)) /\
  (forall window refresh,
      status error <> Some 401%Z \/ _retry (config error) = true \/
      present (ls !! "refresh_token") = false ->
      on_rejected window refresh ls error = (ls, reject_original, [])).
Proof.
  split.
  - intros rt Hs Hr Hrt Hne ls'. subst ls'.
    unfold on_rejected. rewrite Hs, Hr, Hrt.
    rewrite bool_decide_eq_true_2 by reflexivity. cbn [andb negb].
    assert (Hp : present (Some rt) = true) by (apply present_Some; eauto).
    rewrite Hp. cbn [default]. repeat split.
    + now rewrite lookup_delete_ne, lookup_delete_eq.
    + now rewrite lookup_delete_eq.
    + intros k Ha Hk. now rewrite !lookup_delete_ne.
    + intros cfg. unfold on_request.
      now rewrite lookup_delete_ne, lookup_delete_eq.
  - intros window refresh H. unfold on_rejected.
    destruct (bool_decide (status error = Some 401%Z)) eqn:Hs; [| reflexivity].
    apply bool_decide_eq_true in Hs.
    destruct (_retry (config error)) eqn:Hr; [reflexivity |]. cbn [andb negb].
    destruct H as [H | [H | H]]; [contradiction | discriminate |].
    destruct window; [now rewrite H | reflexivity].
Qed.

(** A 401 with a stored refresh token that the server no longer accepts. *)
Lemma failed_refresh_drops_credentials_witness :
  let ls : Storage := {[ "access_token" := "old"; "refresh_token" := "r1" ]} in
  let error := {| status := Some 401%Z;
                  config := {| url := "/api/meetings";
                               authorization := Some "Bearer old";
                               _retry := false |} |} in
  on_rejected true None ls error =
    (delete "refresh_token" (delete "access_token" ls), reject_refresh,
     [post_refresh "r1"; redirect "/signin"]).
Proof.
  intros ls error.
  apply (proj1 (failed_refresh_drops_credentials ls error) "r1"); try reflexivity.
  discriminate.
Defined.

End Tokens.

(** ** Signing in and out *)

Section Session.

Import ApiClient AuthContext.

(** X7.  Signing in stores both tokens, so that later requests carry the
    access token as their bearer; signing out removes both tokens and forgets
    the user, so that later requests carry no authorization of their own;
    signing out is the inverse of signing in on a storage that held no
    tokens, and leaves every other key alone.  On mount, a stored access
    token that the server rejects is dropped together with the refresh
    token. *)
Theorem session_tokens (tokens : Tokens) (st : State) :
  (tk_access_token tokens <> "" ->
   forall cfg,
     on_request true (storage (login tokens st)) cfg =
     with_authorization cfg ("Bearer " +:+ tk_access_token tokens)) /\
  (storage (login tokens st) !! "refresh_token" = Some (tk_refresh_token tokens) /\
   user (login tokens st) = Some (tk_user tokens)) /\
  (user (logout st) = None /\
   storage (logout st) !! "access_token" = None /\
   storage (logout st) !! "refresh_token" = None /\
   (forall k, k <> "access_token" -> k <> "refresh_token" ->
              storage (logout st) !! k = storage st !! k) /\
   forall cfg, on_request true (storage (logout st)) cfg = cfg) /\
  (storage st !! "access_token" = None ->
   storage st !! "refresh_token" = None ->
   storage (logout (login tokens st)) = storage st) /\
  (present (storage st !! "access_token") = true ->
   storage (checkAuth None st) = storage (logout st) /\
   loading (checkAuth None st) = false).
Proof.
  repeat apply conj.
  - intros Hne cfg. unfold on_request, login. cbn [storage].
    rewrite lookup_insert_ne, lookup_insert_eq by done.
    assert (Hp : present (Some (tk_access_token tokens)) = true)
      by (apply present_Some; eauto).
    now rewrite Hp.
  - unfold login. cbn [storage]. now rewrite lookup_insert_eq.
  - reflexivity.
  - reflexivity.
  - unfold logout. cbn [storage]. now rewrite lookup_delete_ne, lookup_delete_eq.
  - unfold logout. cbn [storage]. now rewrite lookup_delete_eq.
  - intros k Ha Hr. unfold logout. cbn [storage]. now rewrite !lookup_delete_ne.
  - intros cfg. unfold on_request, logout. cbn [storage].
    now rewrite lookup_delete_ne, lookup_delete_eq.
  - intros Ha Hr. unfold logout, login. cbn [storage].
    apply map_eq. intros k.
    rewrite !lookup_delete, !lookup_insert.
    repeat case_decide; congruence.
  - intros Hp. unfold checkAuth. rewrite Hp. now split.
Qed.

(** A user signs in on a storage that only holds a theme, and signs out. *)
Lemma session_tokens_witness :
  let st := {| storage := {[ "theme" := "dark" ]}; user := None; loading := false |} in
  let u := {| user_id := 1; email := "a@example.org";
              calendar_connected := JS.Bool true |} in
  let tokens := {| tk_access_token := "a1"; tk_refresh_token := "r1"; tk_user := u |} in
  on_request true (storage (login tokens st))
    {| url := "/api/meetings"; authorization := None; _retry := false |}
  = {| url := "/api/meetings"; authorization := Some "Bearer a1"; _retry := false |}
  /\ storage (logout (login tokens st)) = storage st.
Proof.
  intros st u tokens.
  destruct (session_tokens tokens st) as (H1 & _ & _ & H4 & _).
  split.
  - apply (H1 ltac:(discriminate)).
  - apply H4; reflexivity.
Defined.

End Session.

(** ** Escaping in the exports *)

Section Escaping.

Import ExportLib.

Lemma escapeICS_cons c s :
  escapeICS (String c s) =
  if is_special c then String backslash (String c (escapeICS s))
  else if Ascii.eqb c line_feed then String backslash (String "n" (escapeICS s))
  else String c (escapeICS s).
Proof.
  unfold escapeICS. simpl.
  destruct (is_special c) eqn:Hs; simpl.
  - unfold is_special in Hs.
    destruct (Ascii.eqb_spec c ",") as [-> | _]; [reflexivity |].
    destruct (Ascii.eqb_spec c ";") as [-> | _]; [reflexivity |].
    destruct (Ascii.eqb_spec c backslash) as [-> | _]; [reflexivity | discriminate].
  - destruct (Ascii.eqb c line_feed); reflexivity.
Qed.

Lemma unescapeICS_escapeICS text : unescapeICS (escapeICS text) = text.
Proof.
  induction text as [| c text IH]; [reflexivity |].
  rewrite escapeICS_cons.
  set (r := escapeICS text) in *. clearbody r.
  destruct (is_special c) eqn:Hs.
  - unfold is_special in Hs.
    destruct (Ascii.eqb_spec c ",") as [-> | _]; [cbn; now rewrite IH |].
    destruct (Ascii.eqb_spec c ";") as [-> | _]; [cbn; now rewrite IH |].
    destruct (Ascii.eqb_spec c backslash) as [-> | _];
      [cbn; now rewrite IH | discriminate].
  - destruct (Ascii.eqb_spec c line_feed) as [-> | Hn].
    + cbn. now rewrite IH.
    + unfold is_special in Hs. cbn [unescapeICS].
      destruct (Ascii.eqb_spec c backslash) as [-> | _].
      * rewrite !orb_true_r in Hs. discriminate.
      * now rewrite IH.
Qed.

Lemma escapeICS_no_line_feed text : line_feed ∉ chars (escapeICS text).
Proof.
  induction text as [| c text IH]; [apply not_elem_of_nil |].
  rewrite escapeICS_cons. unfold chars in *.
  destruct (is_special c) eqn:Hs.
  - cbn [list_ascii_of_string].
    rewrite !not_elem_of_cons. repeat split; try done.
    intros <-. discriminate.
  - destruct (Ascii.eqb_spec c line_feed) as [-> | Hn];
      cbn [list_ascii_of_string]; rewrite !not_elem_of_cons;
      repeat split; done.
Qed.

(** X8.  [escapeICS] never leaves a line feed in its result, it returns a
    text without comma, semicolon, backslash and line feed unchanged, and it
    loses nothing: two different texts have different escapes. *)
Theorem escapeICS_is_safe :
  (forall text, line_feed ∉ chars (escapeICS text)) /\
  (forall text,
      Forall (fun c => is_special c = false /\ c <> line_feed) (chars text) ->
      escapeICS text = text) /\
  (forall text1 text2, escapeICS text1 = escapeICS text2 -> text1 = text2).
Proof.
  repeat apply conj.
  - apply escapeICS_no_line_feed.
  - induction text as [| c text IH]; [reflexivity |].
    unfold chars. cbn [list_ascii_of_string]. intros H.
    apply Forall_cons in H as ((Hs & Hn) & H).
    rewrite escapeICS_cons, Hs.
    destruct (Ascii.eqb_spec c line_feed); [contradiction |].
    now rewrite IH.
  - intros text1 text2 H.
    rewrite <- (unescapeICS_escapeICS text1), <- (unescapeICS_escapeICS text2).
    now rewrite H.
Qed.

End Escaping.

(** ** Pages *)

Section Pages.

Import Pagination.
Context {A : Type}.
Implicit Types (l : list A).

Lemma slice_nonneg l (s e : nat) :
  s <= e ->
  JS.slice l (Z.of_nat s) (Z.of_nat e) = take (e - s) (drop s l).
Proof.
  intros Hse. unfold JS.slice.
  destruct (Z.ltb_spec (Z.of_nat s) 0) as [? | _]; [lia |].
  destruct (Z.ltb_spec (Z.of_nat e) 0) as [? | _]; [lia |].
  destruct (Nat.le_gt_cases s (length l)) as [Hs | Hs].
  - replace (Z.to_nat (Z.min (Z.of_nat s) (Z.of_nat (length l)))) with s by lia.
    destruct (Nat.le_gt_cases e (length l)) as [He | He].
    + f_equal. lia.
    + rewrite !take_ge; [reflexivity | |]; rewrite length_drop; lia.
  - rewrite (drop_ge l s) by lia. rewrite take_nil.
    replace (Z.to_nat (Z.min (Z.of_nat e) (Z.of_nat (length l)) -
                       Z.min (Z.of_nat s) (Z.of_nat (length l)))) with 0 by lia.
    reflexivity.
Qed.

Lemma paginated_nat l (j per : nat) :
  paginated l (Z.of_nat j + 1) (Z.of_nat per) = take per (drop (j * per) l).
Proof.
  unfold paginated, endIndex, startIndex.
  replace ((Z.of_nat j + 1 - 1) * Z.of_nat per)%Z with (Z.of_nat (j * per)) by lia.
  replace (Z.of_nat (j * per) + Z.of_nat per)%Z with (Z.of_nat (j * per + per)) by lia.
  rewrite slice_nonneg by lia. f_equal. lia.
Qed.

Lemma take_plus l (a b : nat) : take (a + b) l = (take a l ++ take b (drop a l))%list.
Proof.
  revert l. induction a as [| a IH]; intros l; [reflexivity |].
  destruct l as [| x l]; [simpl; now rewrite take_nil |].
  simpl. now rewrite IH.
Qed.

Lemma pages_concat l (per n : nat) :
  concat (pages l (Z.of_nat per) n) = take (n * per) l.
Proof.
  unfold pages. induction n as [| n IH]; [reflexivity |].
  rewrite seq_S, map_app, concat_app, IH. simpl.
  rewrite paginated_nat, app_nil_r.
  replace (per + n * per) with (n * per + per) by lia.
  now rewrite take_plus.
Qed.

Lemma paginated_length l page per :
  (0 <= per)%Z -> length (paginated l page per) <= Z.to_nat per.
Proof.
  intros Hper. unfold paginated, JS.slice, endIndex, startIndex.
  rewrite length_take.
  destruct (Z.ltb_spec ((page - 1) * per) 0), (Z.ltb_spec ((page - 1) * per + per) 0); lia.
Qed.

(** X9.  For a positive page size the pages of the events and notes lists
    cover the filtered list exactly: their number is the ceiling of the
    length over the page size, the pages 1 to that number put one after the
    other give back the list, no page holds more than the page size, and any
    page past the last one is empty. *)
Theorem pages_cover_the_list l (itemsPerPage : Z) :
  (0 < itemsPerPage)%Z ->
  exists n : nat,
    totalPages l itemsPerPage = Some (Z.of_nat n) /\
    concat (pages l itemsPerPage n) = l /\
    (forall page, length (paginated l page itemsPerPage) <= Z.to_nat itemsPerPage) /\
    (forall page, (Z.of_nat n < page)%Z -> paginated l page itemsPerPage = []).
Proof.
  intros Hper.
  set (per := Z.to_nat itemsPerPage).
  assert (Hp : itemsPerPage = Z.of_nat per) by lia.
  assert (Hpos : 0 < per) by lia.
  set (q := (- (- Z.of_nat (length l) / itemsPerPage))%Z).
  assert (Hq : (Z.of_nat (length l) <= q * itemsPerPage
                /\ (q - 1) * itemsPerPage < Z.of_nat (length l))%Z).
  { subst q.
    pose proof (Z.div_mod (- Z.of_nat (length l)) itemsPerPage ltac:(lia)) as Hdm.
    pose proof (Z.mod_pos_bound (- Z.of_nat (length l)) itemsPerPage Hper) as Hb.
    nia. }
  assert (Hq0 : (0 <= q)%Z) by nia.
  exists (Z.to_nat q). repeat split.
  - unfold totalPages, JS.ceil_div.
    destruct (Z.eqb_spec itemsPerPage 0); [lia |]. f_equal. subst q. lia.
  - rewrite Hp, pages_concat. apply take_ge. nia.
  - intros page. apply paginated_length. lia.
  - intros page Hpage.
    unfold paginated, JS.slice, endIndex, startIndex.
    destruct (Z.ltb_spec ((page - 1) * itemsPerPage) 0); [nia |].
    destruct (Z.ltb_spec ((page - 1) * itemsPerPage + itemsPerPage) 0); [nia |].
    replace (Z.to_nat _) with 0 by nia. reflexivity.
Qed.

End Pages.

(** Seven items, three to a page. *)
Lemma pages_cover_the_list_witness :
  exists n : nat,
    Pagination.totalPages [1; 2; 3; 4; 5; 6; 7] 3 = Some (Z.of_nat n) /\
    concat (Pagination.pages [1; 2; 3; 4; 5; 6; 7] 3 n) = [1; 2; 3; 4; 5; 6; 7] /\
    (forall page, length (Pagination.paginated [1; 2; 3; 4; 5; 6; 7] page 3) <= 3) /\
    (forall page, (Z.of_nat n < page)%Z ->
                  Pagination.paginated [1; 2; 3; 4; 5; 6; 7] page 3 = []).
Proof.
  apply (pages_cover_the_list [1; 2; 3; 4; 5; 6; 7] 3). lia.
Defined.

(** ** From the id of a list entry back to the id of the stored item *)

Section Ids.

Lemma digit_value_decimal m :
  (m < 10)%N -> JS.digit_value 10 (pretty_N_char m) = Some (Z.of_N m).
Proof.
  intros Hm.
  assert (m = 0 \/ m = 1 \/ m = 2 \/ m = 3 \/ m = 4 \/ m = 5 \/ m = 6 \/ m = 7
          \/ m = 8 \/ m = 9)%N as H by lia.
  repeat (destruct H as [-> | H]; [reflexivity |]). now subst.
Qed.

(** The digits [pretty_N_go] puts in front of [s], and their value. *)
Lemma pretty_N_go_digits x :
  (0 < x)%N ->
  forall s, exists ds : list N,
    ds <> [] /\ Forall (fun m => (m < 10)%N) ds /\
    pretty_N_go x s = fold_right (fun m r => String (pretty_N_char m) r) s ds /\
    forall acc : Z,
      fold_left (fun a m => (a * 10 + Z.of_N m)%Z) ds acc
      = (acc * 10 ^ Z.of_nat (length ds) + Z.of_N x)%Z.
Proof.
  induction (N.lt_wf_0 x) as [x _ IH]. intros Hx s.
  rewrite pretty_N_go_step by done.
  assert (Hmod : (x `mod` 10 < 10)%N) by (apply N.mod_lt; lia).
  pose proof (N.div_mod x 10 ltac:(lia)) as Hdm.
  destruct (N.eq_dec (x `div` 10)%N 0%N) as [Hz | Hnz].
  - rewrite Hz, pretty_N_go_0. exists [(x `mod` 10)%N]. repeat split.
    + discriminate.
    + now constructor.
    + intros acc. simpl. lia.
  - destruct (IH (x `div` 10)%N ltac:(apply N.div_lt; lia) ltac:(lia)
                 (String (pretty_N_char (x `mod` 10)) s))
      as (ds & Hne & Hds & Hgo & Hval).
    exists (ds ++ [(x `mod` 10)%N])%list. repeat split.
    + now destruct ds.
    + apply Forall_app. split; [done | now constructor].
    + rewrite Hgo, fold_right_app. reflexivity.
    + intros acc. rewrite fold_left_app, Hval, length_app. simpl.
      replace (Z.of_nat (length ds + 1)) with (Z.of_nat (length ds) + 1)%Z by lia.
      rewrite Z.pow_add_r, Z.pow_1_r by lia. lia.
Qed.

Lemma parse_digits_decimal ds acc :
  ds <> [] -> Forall (fun m => (m < 10)%N) ds ->
  JS.parse_digits 10 acc (fold_right (fun m r => String (pretty_N_char m) r) "" ds)
  = Some (fold_left (fun a m => (a * 10 + Z.of_N m)%Z) ds (default 0%Z acc)).
Proof.
  intros Hne Hds. revert acc Hne.
  induction Hds as [| m ds Hm Hds IH]; intros acc Hne; [done |].
  cbn [fold_right JS.parse_digits fold_left].
  rewrite digit_value_decimal by done.
  destruct ds as [| m' ds']; [reflexivity |].
  rewrite IH by discriminate. reflexivity.
Qed.

Lemma mul_one_fmap (o : option Z) : Z.mul 1 <$> o = o.
Proof. destruct o as [z|]; [| reflexivity]. cbn. f_equal. lia. Qed.

Ltac digit_cases m :=
  let H := fresh "H" in
  assert (m = 0 \/ m = 1 \/ m = 2 \/ m = 3 \/ m = 4 \/ m = 5 \/ m = 6 \/ m = 7
          \/ m = 8 \/ m = 9)%N as H by lia;
  repeat (destruct H as [-> | H]); [.. | subst m].

(** A string of decimal digits carries no hexadecimal prefix. *)
Lemma parse_magnitude_decimal ds :
  ds <> [] -> Forall (fun m => (m < 10)%N) ds ->
  JS.parse_magnitude (fold_right (fun m r => String (pretty_N_char m) r) "" ds)
  = Some (fold_left (fun a m => (a * 10 + Z.of_N m)%Z) ds 0%Z).
Proof.
  intros Hne Hds.
  etransitivity; [| exact (parse_digits_decimal ds None Hne Hds)].
  destruct ds as [| m ds]; [done |].
  apply Forall_cons in Hds as (Hm & Hds).
  cbn [fold_right]. unfold JS.parse_magnitude.
  assert (Hx : String.prefix "0x" (String (pretty_N_char m)
                 (fold_right (fun m r => String (pretty_N_char m) r) "" ds)) = false
               /\ String.prefix "0X" (String (pretty_N_char m)
                 (fold_right (fun m r => String (pretty_N_char m) r) "" ds)) = false).
  { destruct ds as [| m2 ds2].
    - digit_cases m; now split.
    - apply Forall_cons in Hds as (Hm2 & _).
      cbn [fold_right]. digit_cases m; try (now split); digit_cases m2; now split. }
  destruct Hx as (-> & ->). reflexivity.
Qed.

(** The first character of a string of decimal digits is no white space and
    no sign. *)
Lemma parseInt_decimal ds :
  ds <> [] -> Forall (fun m => (m < 10)%N) ds ->
  JS.parseInt (fold_right (fun m r => String (pretty_N_char m) r) "" ds)
  = Some (fold_left (fun a m => (a * 10 + Z.of_N m)%Z) ds 0%Z).
Proof.
  intros Hne Hds.
  rewrite <- (parse_magnitude_decimal ds Hne Hds).
  destruct ds as [| m ds]; [done |].
  apply Forall_cons in Hds as (Hm & Hds).
  cbn [fold_right].
  generalize (fold_right (fun m r => String (pretty_N_char m) r) "" ds). intros r.
  unfold JS.parseInt.
  digit_cases m; cbn -[JS.parse_magnitude Z.mul]; apply mul_one_fmap.
Qed.

Lemma pretty_N_digits x :
  exists ds : list N,
    ds <> [] /\ Forall (fun m => (m < 10)%N) ds /\
    pretty x = fold_right (fun m r => String (pretty_N_char m) r) "" ds /\
    fold_left (fun a m => (a * 10 + Z.of_N m)%Z) ds 0%Z = Z.of_N x.
Proof.
  unfold pretty, pretty_N. destruct (decide (x = 0%N)) as [-> | Hx].
  - exists [0%N].
    repeat split; first [discriminate | reflexivity | repeat constructor; lia].
  - destruct (pretty_N_go_digits x ltac:(lia) "") as (ds & Hne & Hds & -> & Hval).
    exists ds. repeat split; try done; rewrite Hval; lia.
Qed.

(** Reading back the decimal writing of an integer. *)
Lemma parseInt_pretty (z : Z) : JS.parseInt (pretty z) = Some z.
Proof.
  destruct z as [| p | p].
  - reflexivity.
  - change (pretty (Zpos p)) with (pretty (Npos p)).
    destruct (pretty_N_digits (Npos p)) as (ds & Hne & Hds & -> & Hval).
    rewrite parseInt_decimal by done. rewrite Hval. reflexivity.
  - change (pretty (Zneg p)) with ("-" +:+ pretty (Npos p)).
    destruct (pretty_N_digits (Npos p)) as (ds & Hne & Hds & -> & Hval).
    change (JS.parseInt ("-" +:+ ?s)) with (Z.mul (-1) <$> JS.parse_magnitude s).
    rewrite parse_magnitude_decimal by done. rewrite Hval. reflexivity.
Qed.

End Ids.

(** ** Deleting an event *)

Section Deleting.

Lemma prefix_append pat t : String.prefix pat (pat +:+ t) = true.
Proof.
  induction pat as [| c pat IH]; [destruct t; reflexivity |].
  change (String c pat +:+ t) with (String c (pat +:+ t)).
  cbn [String.prefix]. now destruct (ascii_dec c c).
Qed.

Lemma string_drop_append pat t : JS.string_drop (String.length pat) (pat +:+ t) = t.
Proof. induction pat as [| c pat IH]; [reflexivity | exact IH]. Qed.

Lemma replace_first_unfold s pat rep :
  JS.replace_first s pat rep =
  if String.prefix pat s then rep +:+ JS.string_drop (String.length pat) s
  else match s with
       | EmptyString => EmptyString
       | String c s' => String c (JS.replace_first s' pat rep)
       end.
Proof. now destruct s. Qed.

Lemma parseInt_tagged prefix (n : Z) :
  JS.parseInt (JS.replace_first (tagged prefix n) prefix "") = Some n.
Proof.
  unfold tagged. rewrite replace_first_unfold, prefix_append, string_drop_append.
  change ("" +:+ pretty n) with (pretty n). apply parseInt_pretty.
Qed.

(** X10.  Deleting an entry of the events list addresses the stored item it
    was built from: for the id [event-<n>] of a safe integer [n] the DELETE
    request carries [n].
    If the user declines the confirmation nothing is sent and nothing changes;
    if the request fails the list and the selection stay as they are; if it
    succeeds the selection is cleared and the list keeps, in their order,
    exactly the events with another id. *)
Theorem delete_addresses_the_stored_item
    (events : list EventsPage.Event) (selectedEvent : option EventsPage.Event) (n : Z) :
  safe_integer n ->
  let eventId := tagged "event-" n in
  (forall api_ok,
      EventsPage.handleDeleteEvent false api_ok events selectedEvent eventId
      = (events, selectedEvent, [])) /\
  EventsPage.handleDeleteEvent true false events selectedEvent eventId
  = (events, selectedEvent,
     [EventsPage.api_deleteEvent (Some n);
      EventsPage.deleted_log (console_error "Failed to delete event:");
      EventsPage.deleted_toast_error "Failed to delete event"]) /\
  (exists events',
      EventsPage.handleDeleteEvent true true events selectedEvent eventId
      = (events', None,
         [EventsPage.api_deleteEvent (Some n);
          EventsPage.deleted_toast_success "Event deleted successfully"]) /\
      events' `sublist_of` events /\
      (forall e, e ∈ events' <-> e ∈ events /\ EventsPage.ev_id e <> eventId)).
Proof.
  intros _ eventId. unfold EventsPage.handleDeleteEvent. subst eventId.
  rewrite parseInt_tagged. repeat split.
  eexists. split; [reflexivity |]. split.
  - apply sublist_filter.
  - intros e. rewrite list_elem_of_filter. tauto.
Qed.

End Deleting.

(** The entry of the stored item 42 is deleted from a list of two. *)
Lemma delete_addresses_the_stored_item_witness :
  let entry n :=
    {| EventsPage.ev_id := tagged "event-" n; EventsPage.eventItemId := Some n;
       EventsPage.title := JS.Str "Review"; EventsPage.start := Some 0%Z;
       EventsPage.end_ := Some 3600000%Z; EventsPage.description := JS.Str "";
       EventsPage.location := JS.Undefined; EventsPage.attendees := [];
       EventsPage.meetingId := "job-1"; EventsPage.type := "meeting";
       EventsPage.synced := true; EventsPage.notificationsEnabled := true;
       EventsPage.completed := JS.Bool false; EventsPage.urgency := JS.Undefined |} in
  safe_integer 42 /\
  EventsPage.handleDeleteEvent true false [entry 42%Z; entry 7%Z] None (tagged "event-" 42)
  = ([entry 42%Z; entry 7%Z], None,
     [EventsPage.api_deleteEvent (Some 42%Z);
      EventsPage.deleted_log (console_error "Failed to delete event:");
      EventsPage.deleted_toast_error "Failed to delete event"]) /\
  (EventsPage.handleDeleteEvent true true [entry 42%Z; entry 7%Z] None
     (tagged "event-" 42)).1.1 = [entry 7%Z].
Proof.
  intros entry.
  assert (H : safe_integer 42) by (unfold safe_integer; lia).
  split; [exact H |]. split; [| reflexivity].
  exact (proj1 (proj2
           (delete_addresses_the_stored_item [entry 42%Z; entry 7%Z] None 42 H))).
Defined.

(** ** What the events page extracts *)

Section Extraction.

Variable L : Lib.

Lemma forEach_event_fst {A} (body : Meeting -> EventItem -> list A * list console)
    meetings :
  (forEach_event body meetings).1 =
  flat_map (fun meeting =>
              flat_map (fun eventItem => (body meeting eventItem).1)
                       (default [] (events meeting))) meetings.
Proof.
  unfold forEach_event, collect. cbn [fst].
  induction meetings as [| m ms IH]; [reflexivity |].
  cbn [flat_map]. rewrite map_app, concat_app, IH. f_equal.
  destruct (events m) as [evs|]; [| reflexivity]. cbn [default].
  induction evs as [| i evs IHe]; [reflexivity |].
  cbn [map concat flat_map]. now rewrite IHe.
Qed.

Lemma events_item_fst meeting eventItem :
  map EventsPage.ev_id (EventsPage.processItem L meeting eventItem).1 =
  (if has_date L eventItem then [tagged "event-" (id eventItem)] else []) /\
  map EventsPage.eventItemId (EventsPage.processItem L meeting eventItem).1 =
  (if has_date L eventItem then [Some (id eventItem)] else []) /\
  map EventsPage.meetingId (EventsPage.processItem L meeting eventItem).1 =
  (if has_date L eventItem then [job_id meeting] else []).
Proof.
  unfold EventsPage.processItem, has_date, stored_fields.
  destruct (decode L (event_data eventItem)) as [x|]; cbn [mbind option_bind].
  - destruct (String.eqb (event_type eventItem) "dated_events"); [| now repeat split].
    destruct (Data_fields x) as [d|]; [| now repeat split].
    cbn [andb]. destruct (JS.truthy d.["date"]); now repeat split.
  - rewrite andb_false_r. now repeat split.
Qed.

Lemma tagged_inj prefix : Inj (=) (=) (tagged prefix).
Proof.
  intros n1 n2 H. unfold tagged in H.
  apply (inj (String.append prefix)) in H. now apply (inj pretty) in H.
Qed.

(** X11.  The list [fetchEvents] hands to the state of the events page, from
    which the page later filters, sorts and paginates what it displays, holds
    one entry for each dated event whose data decodes to a record with a
    truthy date, in the order of the meetings and of their items, and nothing
    else.  The entry of the item with id [n] has the id [event-<n>] and
    remembers [n]; when the stored ids are pairwise different, so are the ids
    of the entries. *)
Theorem events_page_extracts_dated_items (meetings : list Meeting) :
  let shown := filter (fun i => has_date L i = true) (all_items meetings) in
  let events := (EventsPage.fetchEvents L meetings).1 in
  map EventsPage.ev_id events = map (fun i => tagged "event-" (id i)) shown /\
  map EventsPage.eventItemId events = map (fun i => Some (id i)) shown /\
  length events <= length (all_items meetings) /\
  (NoDup (map id (all_items meetings)) -> NoDup (map EventsPage.ev_id events)).
Proof.
  intros shown events.
  assert (Hids : map EventsPage.ev_id events = map (fun i => tagged "event-" (id i)) shown
                 /\ map EventsPage.eventItemId events = map (fun i => Some (id i)) shown).
  { subst shown events. unfold EventsPage.fetchEvents, all_items.
    rewrite forEach_event_fst.
    induction meetings as [| m ms [IH1 IH2]]; [now split |].
    cbn [flat_map]. rewrite filter_app, !map_app, IH1, IH2.
    assert (Hm : map EventsPage.ev_id
                   (flat_map (fun eventItem => (EventsPage.processItem L m eventItem).1)
                             (default [] (events m)))
                 = map (fun i => tagged "event-" (id i))
                       (filter (fun i => has_date L i = true) (default [] (events m)))
                 /\ map EventsPage.eventItemId
                   (flat_map (fun eventItem => (EventsPage.processItem L m eventItem).1)
                             (default [] (events m)))
                 = map (fun i => Some (id i))
                       (filter (fun i => has_date L i = true) (default [] (events m)))).
    { induction (default [] (events m)) as [| i evs [IHe1 IHe2]]; [now split |].
      cbn [flat_map]. rewrite !map_app, IHe1, IHe2.
      destruct (events_item_fst m i) as (H1 & H2 & _). rewrite H1, H2.
      rewrite filter_cons. destruct (has_date L i); now split. }
    destruct Hm as (-> & ->). now split. }
  destruct Hids as (H1 & H2). repeat split; [exact H1 | exact H2 | |].
  - rewrite <- (length_map EventsPage.ev_id), H1, length_map.
    subst shown. apply length_filter.
  - intros Hnd. rewrite H1.
    apply (NoDup_fmap_2_strong (fun i => tagged "event-" (id i))).
    + intros i1 i2 Hi1 Hi2 Heq. apply tagged_inj in Heq.
      apply list_elem_of_filter in Hi1 as (_ & Hi1).
      apply list_elem_of_filter in Hi2 as (_ & Hi2).
      apply (NoDup_fmap_1 id) in Hnd as Hnd'.
      clear Hnd'. revert Hi1 Hi2 Heq. generalize (all_items meetings) Hnd.
      clear. intros l Hnd Hi1 Hi2 Heq.
      induction l as [| x l IH]; [now apply not_elem_of_nil in Hi1 |].
      cbn [map] in Hnd. apply NoDup_cons in Hnd as (Hx & Hnd).
      apply elem_of_cons in Hi1 as [-> | Hi1]; apply elem_of_cons in Hi2 as [-> | Hi2];
        [reflexivity | | | now apply IH].
      * exfalso. apply Hx. rewrite Heq. now apply list_elem_of_fmap_2.
      * exfalso. apply Hx. rewrite <- Heq. now apply list_elem_of_fmap_2.
    + subst shown. apply NoDup_filter.
      now apply (NoDup_fmap_1 id).
Qed.

End Extraction.

(** ** Sorting *)

Section Sorting.

Context {A : Type} (cmp : A -> A -> option Z) (le : A -> A -> Prop) (P : A -> Prop).
Hypothesis le_trans : forall x y z, le x y -> le y z -> le x z.
Hypothesis cmp_le : forall x y, P x -> P y ->
  if (default 0 (cmp x y) <? 0)%Z then le x y else le y x.

Lemma insert_sorted_perm x l : TasksPage.insert_sorted cmp x l ≡ₚ x :: l.
Proof.
  induction l as [| y l IH]; [reflexivity |]. simpl.
  destruct (_ <? 0)%Z; [reflexivity |].
  rewrite IH. apply Permutation_swap.
Qed.

Lemma sort_perm_acc l acc :
  fold_left (fun acc x => TasksPage.insert_sorted cmp x acc) l acc ≡ₚ (acc ++ l)%list.
Proof.
  revert acc. induction l as [| x l IH]; intros acc; simpl.
  - now rewrite app_nil_r.
  - rewrite IH, insert_sorted_perm. simpl. apply Permutation_middle.
Qed.

Lemma sort_perm l : TasksPage.sort cmp l ≡ₚ l.
Proof. unfold TasksPage.sort. now rewrite sort_perm_acc. Qed.

Lemma insert_sorted_sorted x l :
  P x -> Forall P l -> StronglySorted le l ->
  StronglySorted le (TasksPage.insert_sorted cmp x l).
Proof.
  intros Hx Hl Hs. induction l as [| y l IH]; simpl.
  - repeat constructor.
  - apply Forall_cons in Hl as (Hy & Hl).
    apply StronglySorted_inv in Hs as (Hs & Hyl).
    pose proof (cmp_le x y Hx Hy) as Hc.
    destruct (_ <? 0)%Z.
    + constructor; [now constructor |].
      constructor; [exact Hc |].
      eapply Forall_impl; [exact Hyl |]. intros z Hz. eauto.
    + constructor; [now apply IH |].
      rewrite insert_sorted_perm. now constructor.
Qed.

Lemma sort_sorted l : Forall P l -> StronglySorted le (TasksPage.sort cmp l).
Proof.
  unfold TasksPage.sort.
  assert (H : forall acc, Forall P acc -> StronglySorted le acc -> Forall P l ->
            StronglySorted le
              (fold_left (fun acc x => TasksPage.insert_sorted cmp x acc) l acc)).
  { induction l as [| x l IH]; intros acc Hacc Hs Hl; [exact Hs |].
    apply Forall_cons in Hl as (Hx & Hl). simpl. apply IH; [| | exact Hl].
    - rewrite insert_sorted_perm. now constructor.
    - now apply insert_sorted_sorted. }
  intros Hl. apply H; [constructor | constructor | exact Hl].
Qed.

End Sorting.

(** ** The order of the task list *)

Section TaskOrder.

Lemma key_le_trans k1 k2 k3 : key_le k1 k2 -> key_le k2 k3 -> key_le k1 k3.
Proof. unfold key_le. lia. Qed.

Lemma task_le_trans a b c : task_le a b -> task_le b c -> task_le a c.
Proof. apply key_le_trans. Qed.

Lemma level_two_valued t : TasksPage.level t = "yes" \/ TasksPage.level t = "no".
Proof. apply urgency_two_valued. Qed.

Lemma compareTasks_spec a b :
  regular_task a -> regular_task b ->
  if (default 0 (TasksPage.compareTasks a b) <? 0)%Z then task_le a b else task_le b a.
Proof.
  intros ((ta & Hta) & (ca & Hca)) ((tb & Htb) & (cb & Hcb)).
  unfold TasksPage.compareTasks, task_le, task_key, key_le.
  rewrite Hta, Htb, Hca, Hcb. cbn [default JS.truthy fst snd TasksPage.time_diff].
  destruct (level_two_valued a) as [-> | ->], (level_two_valued b) as [-> | ->];
    destruct ca, cb; repeat case_bool_decide; try congruence;
    change (TasksPage.urgencyOrder "yes") with 0%Z;
    change (TasksPage.urgencyOrder "no") with 1%Z; simpl;
    try (destruct (Z.ltb_spec (ta - tb) 0)); lia.
Qed.

Lemma sorted_lookup {A} (R : A -> A -> Prop) (l : list A) i j a b :
  StronglySorted R l -> i < j -> l !! i = Some a -> l !! j = Some b -> R a b.
Proof.
  intros Hs. revert i j. induction Hs as [| x l Hs IH Hx]; intros i j Hij Hi Hj.
  - now rewrite lookup_nil in Hi.
  - destruct j as [| j]; [lia |]. destruct i as [| i].
    + cbn in Hi, Hj. injection Hi as ->.
      rewrite Forall_forall in Hx. apply Hx. eapply list_elem_of_lookup_2, Hj.
    + cbn in Hi, Hj. apply (IH i j); [lia | done | done].
Qed.

(** X12.  The list [fetchTasks] hands to the page holds exactly the tasks
    collected from the meetings.  When every task has a valid date and a
    boolean [completed], the list is in the order announced by the code:
    urgent tasks first ('high', 'medium' and 'yes' all count as urgent), then
    pending before completed, then by date; in particular no task that is
    not urgent stands before an urgent one. *)
Theorem tasks_are_sorted (L : Lib) (meetings : list Meeting) :
  let collected := (forEach_event (TasksPage.processItem L) meetings).1 in
  let tasks := (TasksPage.fetchTasks L meetings).1 in
  tasks ≡ₚ collected /\
  (Forall regular_task collected ->
   StronglySorted task_le tasks /\
   forall i j a b,
     i < j -> tasks !! i = Some a -> tasks !! j = Some b ->
     TasksPage.isUrgent b = true -> TasksPage.isUrgent a = true).
Proof.
  intros collected tasks. subst tasks. unfold TasksPage.fetchTasks. cbn [fst].
  fold collected. split; [apply sort_perm |].
  intros Hreg.
  assert (Hs : StronglySorted task_le (TasksPage.sort TasksPage.compareTasks collected)).
  { apply (sort_sorted TasksPage.compareTasks task_le regular_task);
      [exact task_le_trans | exact compareTasks_spec | exact Hreg]. }
  split; [exact Hs |].
  intros i j a b Hij Ha Hb Hurgent.
  pose proof (sorted_lookup task_le _ i j a b Hs Hij Ha Hb) as Hle.
  unfold TasksPage.isUrgent, UrgencyAt.isUrgent in *.
  unfold task_le, key_le, task_key in Hle. cbn [fst snd] in Hle.
  unfold TasksPage.level in Hle.
  apply String.eqb_eq in Hurgent. rewrite Hurgent in Hle.
  destruct (urgency_two_valued (TasksPage.urgency a)) as [-> | Hno]; [reflexivity |].
  rewrite Hno in Hle.
  change (TasksPage.urgencyOrder "yes") with 0%Z in Hle.
  change (TasksPage.urgencyOrder "no") with 1%Z in Hle. lia.
Qed.

End TaskOrder.

(** A note and a dated event with numeric dates, read with [epoch_lib]. *)
Lemma tasks_are_sorted_witness :
  let normal :=
    {| id := 1; event_type := "dated_events";
       event_data := RawValue (DObj {[ "title" := JS.Str "Book room";
                                       "date" := JS.Num 1700000000000;
                                       "urgency" := JS.Str "low" ]}) |} in
  let urgent :=
    {| id := 2; event_type := "dated_events";
       event_data := RawValue (DObj {[ "title" := JS.Str "Send contract";
                                       "date" := JS.Num 1800000000000;
                                       "urgency" := JS.Str "medium" ]}) |} in
  let meeting :=
    {| job_id := "job-1"; created_at := JS.Num 1600000000000;
       final_summary := RawValue (DObj ∅); events := Some [normal; urgent] |} in
  StronglySorted task_le (TasksPage.fetchTasks epoch_lib [meeting]).1 /\
  map TasksPage.task_id (TasksPage.fetchTasks epoch_lib [meeting]).1 = [2; 1]%Z.
Proof.
  intros normal urgent meeting. split; [| reflexivity].
  apply (proj2 (tasks_are_sorted epoch_lib [meeting])).
  repeat constructor; eexists; reflexivity.
Defined.

(** ** Upcoming events on the dashboard *)

Section Upcoming.

Variables (L : Lib) (now : Z).

Lemma forEach_event_filter {A B} (body : Meeting -> EventItem -> list A * list console)
    (f : A -> B) (keep : EventItem -> bool) (g : EventItem -> B) meetings :
  (forall meeting eventItem,
      map f (body meeting eventItem).1 = if keep eventItem then [g eventItem] else []) ->
  map f (forEach_event body meetings).1 =
  map g (filter (fun i => keep i = true) (all_items meetings)).
Proof.
  intros Hbody. rewrite forEach_event_fst. unfold all_items.
  induction meetings as [| m ms IH]; [reflexivity |].
  cbn [flat_map]. rewrite filter_app, !map_app, IH. f_equal.
  induction (default [] (events m)) as [| i evs IHe]; [reflexivity |].
  cbn [flat_map]. rewrite map_app, IHe, Hbody, filter_cons.
  now destruct (keep i).
Qed.

Lemma upcoming_item_fst meeting eventItem :
  map upcoming_entry (DashboardPage.processItem L now meeting eventItem).1 =
  if upcoming_item L now eventItem then [(id eventItem, item_time L eventItem)] else [].
Proof.
  unfold DashboardPage.processItem, upcoming_item, item_time, stored_fields.
  destruct (decode L (event_data eventItem)) as [x|]; cbn [mbind option_bind];
    [| now rewrite andb_false_r].
  destruct (String.eqb (event_type eventItem) "dated_events"); [| reflexivity].
  destruct (Data_fields x) as [d|]; cbn [mbind option_bind andb]; [| reflexivity].
  destruct (newDate L d.["date"]) as [t|]; [| reflexivity].
  now destruct (now <? t)%Z.
Qed.

Lemma upcoming_collected_after meetings e :
  e ∈ (forEach_event (DashboardPage.processItem L now) meetings).1 -> after now e.
Proof.
  intros He.
  apply elem_of_forEach_event in He as (meeting & evs & eventItem & _ & _ & _ & He).
  revert He. unfold DashboardPage.processItem.
  destruct (decode L (event_data eventItem)) as [x|]; [| now intros ?%not_elem_of_nil].
  destruct (String.eqb _ _); [| now intros ?%not_elem_of_nil].
  destruct (Data_fields x) as [d|]; [| now intros ?%not_elem_of_nil].
  destruct (newDate L d.["date"]) as [t|] eqn:Ht; [| now intros ?%not_elem_of_nil].
  destruct (Z.ltb_spec now t); [| now intros ?%not_elem_of_nil].
  intros ->%list_elem_of_singleton. exists t. now split.
Qed.

Lemma sooner_trans a b c : sooner a b -> sooner b c -> sooner a c.
Proof. unfold sooner. lia. Qed.

Lemma time_diff_spec a b :
  after now a -> after now b ->
  if (default 0 (TasksPage.time_diff (DashboardPage.date a) (DashboardPage.date b)) <? 0)%Z
  then sooner a b else sooner b a.
Proof.
  intros (ta & Hta & _) (tb & Htb & _). unfold sooner. rewrite Hta, Htb. simpl.
  destruct (Z.ltb_spec (ta - tb) 0); lia.
Qed.

(** X13.  Of the stored dated events whose date is valid and later than the
    present moment, the dashboard is handed the five soonest, or all of them
    when there are fewer, in the order of their dates.  The events handed over
    together with some others make up exactly those stored items, each with
    its id and its time, and none of the others is sooner than an event handed
    over. *)
Theorem upcoming_events_are_the_soonest (meetings : list Meeting) :
  let candidates := filter (fun i => upcoming_item L now i = true) (all_items meetings) in
  let upcoming := (DashboardPage.fetchUpcomingEvents L now meetings).1 in
  length upcoming = Nat.min 5 (length candidates) /\
  Forall (after now) upcoming /\
  StronglySorted sooner upcoming /\
  exists others,
    map upcoming_entry (upcoming ++ others)
      ≡ₚ map (fun i => (id i, item_time L i)) candidates /\
    (forall shown other, shown ∈ upcoming -> other ∈ others -> sooner shown other).
Proof.
  intros candidates upcoming. subst upcoming.
  unfold DashboardPage.fetchUpcomingEvents. cbn [fst].
  set (collected := (forEach_event (DashboardPage.processItem L now) meetings).1).
  set (cmp := fun a b => TasksPage.time_diff (DashboardPage.date a) (DashboardPage.date b)).
  set (sorted := TasksPage.sort cmp collected).
  assert (Hperm : sorted ≡ₚ collected) by apply sort_perm.
  assert (Hstored : map upcoming_entry collected
                    = map (fun i => (id i, item_time L i)) candidates).
  { apply forEach_event_filter, upcoming_item_fst. }
  assert (Hafter : Forall (after now) collected).
  { apply Forall_forall. intros e He. now apply (upcoming_collected_after meetings). }
  assert (Hs : StronglySorted sooner sorted).
  { apply (sort_sorted cmp sooner (after now));
      [exact sooner_trans | exact time_diff_spec | exact Hafter]. }
  assert (Hsplit : sorted = (take 5 sorted ++ drop 5 sorted)%list)
    by now rewrite take_drop.
  split; [| split; [| split]].
  - rewrite length_take, Hperm.
    rewrite <- (length_map upcoming_entry collected), Hstored, length_map. reflexivity.
  - apply Forall_take. now rewrite Hperm.
  - rewrite Hsplit in Hs. now apply StronglySorted_app_1_l in Hs.
  - exists (drop 5 sorted). split.
    + rewrite take_drop, <- Hstored. now apply fmap_Permutation.
    + intros shown other Hshown Hother. rewrite Hsplit in Hs.
      now apply (StronglySorted_app_1_elem_of _ _ _ shown other) in Hs.
Qed.

End Upcoming.

(** Six future events and one past one: the five soonest are handed over. *)
Lemma upcoming_events_are_the_soonest_witness :
  let item n t :=
    {| id := n; event_type := "dated_events";
       event_data := RawValue (DObj {[ "title" := JS.Str "Review";
                                       "date" := JS.Num t ]}) |} in
  let meeting :=
    {| job_id := "job-1"; created_at := JS.Num 0;
       final_summary := RawValue (DObj ∅);
       events := Some [item 1 7000; item 2 3000; item 3 500; item 4 6000;
                       item 5 2000; item 6 5000; item 7 4000]%Z |} in
  let upcoming := (DashboardPage.fetchUpcomingEvents epoch_lib 1000 [meeting]).1 in
  map DashboardPage.up_id upcoming = [5; 2; 7; 6; 4]%Z /\
  length upcoming = 5 /\
  StronglySorted sooner upcoming.
Proof.
  intros item meeting upcoming.
  pose proof (upcoming_events_are_the_soonest epoch_lib 1000 [meeting]) as (Hl & _ & Hs & _).
  split; [reflexivity |]. split; [exact Hl | exact Hs].
Defined.

(** ** Notes and the tasks of their meeting *)

Section NotesDone.

Variable L : Lib.

Lemma elem_of_completed_title eventItem key :
  key ∈ NotesPage.completed_title L eventItem <->
  exists d, event_type eventItem = "dated_events" /\
            stored_fields L eventItem = Some d /\
            JS.truthy d.["completed"] = true /\
            NotesPage.title_key d.["title"] = Some key.
Proof.
  unfold NotesPage.completed_title, stored_fields.
  destruct (decode L (event_data eventItem)) as [x|]; simpl;
    [| split; [intros ?%not_elem_of_empty; contradiction | intros (? & _ & ? & _); discriminate]].
  destruct (String.eqb_spec (event_type eventItem) "dated_events") as [Ht|Ht];
    [| split; [intros ?%not_elem_of_empty; contradiction | intros (? & ? & _); contradiction]].
  destruct (Data_fields x) as [d|];
    [| split; [intros ?%not_elem_of_empty; contradiction | intros (? & _ & ? & _); discriminate]].
  destruct (JS.truthy d.["completed"]) eqn:Hc;
    [| split; [intros ?%not_elem_of_empty; contradiction
              | intros (? & _ & [= <-] & ? & _); congruence]].
  destruct (NotesPage.title_key d.["title"]) as [k|] eqn:Hk.
  - rewrite elem_of_singleton. split.
    + intros ->. eauto.
    + intros (? & _ & [= <-] & _ & Hk'). congruence.
  - split; [intros ?%not_elem_of_empty; contradiction |].
    intros (? & _ & [= <-] & _ & Hk'). congruence.
Qed.

Lemma elem_of_completedTasks evs key :
  key ∈ NotesPage.completedTasks L evs <-> completed_task_titled L evs key.
Proof.
  unfold NotesPage.completedTasks, completed_task_titled.
  rewrite elem_of_union_list. split.
  - intros (X & HX & Hk). apply list_elem_of_fmap in HX as (task & -> & Ht).
    apply elem_of_completed_title in Hk as (d & ? & ? & ? & ?). eauto 8.
  - intros (task & d & Ht & ? & ? & ? & ?).
    exists (NotesPage.completed_title L task). split.
    + apply list_elem_of_fmap. eauto.
    + apply elem_of_completed_title. eauto.
Qed.

(** X14.  When the stored items have safe ids and ASCII titles, every note
    [fetchNotes] hands to the notes page comes from a stored item of type
    notes, and it is marked completed exactly when its own stored flag is set
    or when the same meeting holds a completed dated event with the same
    title, letter case apart. *)
Theorem note_completed_through_task (meetings : list Meeting) (n : NotesPage.Note) :
  Forall (plain_item L) (all_items meetings) ->
  n ∈ (NotesPage.fetchNotes L meetings).1 ->
  exists meeting evs eventItem d key,
    meeting ∈ meetings /\ events meeting = Some evs /\ eventItem ∈ evs /\
    event_type eventItem = "notes" /\
    stored_fields L eventItem = Some d /\
    NotesPage.note_id n = tagged "note-" (id eventItem) /\
    NotesPage.title_key d.["title"] = Some key /\
    (JS.truthy (NotesPage.completed n) = true <->
     JS.truthy d.["completed"] = true \/ completed_task_titled L evs key).
Proof.
  unfold NotesPage.fetchNotes. intros _ Hn.
  apply elem_of_collect_fst in Hn as (r & Hr & Hn).
  apply list_elem_of_fmap in Hr as (meeting & -> & Hm).
  unfold NotesPage.processMeeting in Hn.
  destruct (decode L (final_summary meeting)) as [finalSummary|];
    [| now apply not_elem_of_nil in Hn].
  destruct (events meeting) as [evs|] eqn:Hevs; [| now apply not_elem_of_nil in Hn].
  apply elem_of_collect_fst in Hn as (r & Hr & Hn).
  apply list_elem_of_fmap in Hr as (eventItem & -> & Hi).
  exists meeting, evs, eventItem.
  revert Hn. unfold NotesPage.processItem, stored_fields.
  destruct (decode L (event_data eventItem)) as [x|]; simpl;
    [| now intros ?%not_elem_of_nil].
  destruct (String.eqb_spec (event_type eventItem) "notes") as [Ht|Ht];
    [| now intros ?%not_elem_of_nil].
  destruct (Data_fields x) as [d|]; [| now intros ?%not_elem_of_nil].
  destruct (Data_fields finalSummary) as [fs|]; [| now intros ?%not_elem_of_nil].
  destruct (NotesPage.map_category d.["category"]) as [category|];
    [| now intros ?%not_elem_of_nil].
  destruct (NotesPage.title_key d.["title"]) as [key|] eqn:Hkey;
    [| now intros ?%not_elem_of_nil].
  intros ->%list_elem_of_singleton. exists d, key. simpl.
  repeat (split; [done |]).
  rewrite <- elem_of_completedTasks. unfold JS.or.
  destruct (JS.truthy d.["completed"]) eqn:Hc.
  - rewrite Hc. tauto.
  - simpl. case_bool_decide; simpl.
    + tauto.
    + split; [discriminate | intros [? | ?]; [discriminate | contradiction]].
Qed.

End NotesDone.

(** A meeting whose note and completed task share a title, letter case
    apart. *)
Lemma note_completed_through_task_witness :
  let task :=
    {| id := 1; event_type := "dated_events";
       event_data := RawValue (DObj {[ "title" := JS.Str "Budget Review";
                                       "completed" := JS.Bool true ]}) |} in
  let note :=
    {| id := 2; event_type := "notes";
       event_data := RawValue (DObj {[ "title" := JS.Str "budget review" ]}) |} in
  let meeting :=
    {| job_id := "job-1"; created_at := JS.Undefined;
       final_summary := RawValue (DObj ∅); events := Some [task; note] |} in
  Forall (plain_item strict_lib) (all_items [meeting]) /\
  exists n,
    (NotesPage.fetchNotes strict_lib [meeting]).1 = [n] /\
    JS.truthy (NotesPage.completed n) = true /\
    exists meeting' evs eventItem d key,
      meeting' ∈ [meeting] /\ events meeting' = Some evs /\ eventItem ∈ evs /\
      event_type eventItem = "notes" /\
      stored_fields strict_lib eventItem = Some d /\
      NotesPage.note_id n = tagged "note-" (id eventItem) /\
      NotesPage.title_key d.["title"] = Some key /\
      (JS.truthy (NotesPage.completed n) = true <->
       JS.truthy d.["completed"] = true \/ completed_task_titled strict_lib evs key).
Proof.
  intros task note meeting.
  assert (Hplain : Forall (plain_item strict_lib) (all_items [meeting])).
  { repeat constructor; try (unfold safe_integer; simpl; lia);
      intros d s [= <-]; vm_compute; intros [= <-]; repeat constructor. }
  split; [exact Hplain |].
  eexists. split; [vm_compute; reflexivity |].
  split; [reflexivity |].
  apply (note_completed_through_task strict_lib [meeting] _ Hplain).
  vm_compute. apply list_elem_of_In. simpl. auto.
Defined.

(** ** The task list after a toggle *)

Section SortMap.

Context {A : Type} (cmp : A -> A -> option Z) (g : A -> A).
Hypothesis cmp_g : forall a b, cmp (g a) (g b) = cmp a b.



End SortMap.

Section Toggled.






End Toggled.


(** ** Notifications on the events page *)

Section Notifications.

Import EventsPage.

Lemma with_notifications_twice e :
  with_notifications (with_notifications e (negb (notificationsEnabled e)))
                     (negb (negb (notificationsEnabled e))) = e.
Proof. destruct e as [? ? ? ? ? ? ? ? ? ? ? b ? ?]. unfold with_notifications. simpl. now destruct b. Qed.

Lemma find_toggled events eventId :
  List.find (fun e => String.eqb (ev_id e) eventId)
            (handleToggleNotification events eventId).1 =
  (fun e => with_notifications e (negb (notificationsEnabled e))) <$>
    first_with_id events eventId.
Proof.
  unfold first_with_id. cbn [handleToggleNotification fst].
  induction events as [| e events IH]; [done |]. cbn [map List.find].
  destruct (String.eqb (ev_id e) eventId) eqn:He; cbn [ev_id with_notifications].
  - now rewrite He.
  - now rewrite He.
Qed.

(** X16.  Switching the notifications of an event is local to the page:
    the handler shows one toast and sends nothing; it changes no field but
    [notificationsEnabled], and that one only on the events with the given
    id; the toast says enabled exactly when the first such event had them off;
    switching twice gives the list back.  A fetch does not know of it: every
    event it yields has its notifications on. *)
Theorem notification_toggle_is_local
    (L : Lib) (meetings : list Meeting) (events : list Event) (eventId : string) :
  let toggled := handleToggleNotification events eventId in
  (handleToggleNotification toggled.1 eventId).1 = events /\
  (forall i e, events !! i = Some e ->
     exists e', toggled.1 !! i = Some e' /\
       same_but_notifications e e' /\
       notificationsEnabled e' =
         (if String.eqb (ev_id e) eventId then negb (notificationsEnabled e)
          else notificationsEnabled e)) /\
  (toggled.2 = toast_success "Notifications enabled for this event" \/
   toggled.2 = toast_info "Notifications disabled for this event") /\
  (toggled.2 = toast_success "Notifications enabled for this event" <->
   exists e, first_with_id events eventId = Some e /\ notificationsEnabled e = false) /\
  Forall (fun e => notificationsEnabled e = true) (fetchEvents L meetings).1.
Proof.
  intros toggled. split; [| split; [| split; [| split]]].
  - subst toggled. cbn [handleToggleNotification fst].
    transitivity (map (fun e : Event => e) events); [| apply map_id].
    rewrite map_map. apply map_ext. intros e. simpl.
    destruct (String.eqb (ev_id e) eventId) eqn:He; cbn [ev_id with_notifications].
    + rewrite He. apply with_notifications_twice.
    + now rewrite He.
  - intros i e Hi. subst toggled. cbn [handleToggleNotification fst].
    rewrite list_lookup_fmap, Hi. simpl. eexists. split; [reflexivity |].
    destruct (String.eqb (ev_id e) eventId); unfold same_but_notifications; simpl;
      repeat split.
  - subst toggled. unfold handleToggleNotification. cbn [snd].
    destruct (List.find _ _) as [e|]; [destruct (notificationsEnabled e) |]; auto.
  - pose proof (find_toggled events eventId) as Hf.
    subst toggled. unfold handleToggleNotification in *. cbn [fst snd] in *.
    rewrite Hf. destruct (first_with_id events eventId) as [e|]; simpl.
    + destruct (notificationsEnabled e) eqn:Hn; simpl; split.
      * discriminate.
      * intros (e' & [= <-] & ?). congruence.
      * eauto.
      * reflexivity.
    + split; [discriminate | intros (e' & ? & _); discriminate].
  - apply Forall_forall. intros e He.
    apply elem_of_forEach_event in He as (meeting & evs & eventItem & _ & _ & _ & He).
    revert He. unfold processItem.
    destruct (decode L (event_data eventItem)) as [x|]; [| now intros ?%not_elem_of_nil].
    destruct (String.eqb _ _); [| now intros ?%not_elem_of_nil].
    destruct (Data_fields x) as [d|]; [| now intros ?%not_elem_of_nil].
    destruct (JS.truthy _); [| now intros ?%not_elem_of_nil].
    now intros ->%list_elem_of_singleton.
Qed.

End Notifications.

(** ** The category of a note *)

Section Categories.

Lemma upper_lower_ascii c : JS.upper_ascii (JS.lower_ascii c) = JS.upper_ascii c.
Proof. destruct c as [[] [] [] [] [] [] [] []]; reflexivity. Qed.

Lemma toUpperCase_toLowerCase s : JS.toUpperCase (JS.toLowerCase s) = JS.toUpperCase s.
Proof. induction s as [| c s IH]; simpl; [done |]. now rewrite upper_lower_ascii, IH. Qed.

Lemma toLowerCase_empty s : String.eqb (JS.toLowerCase s) "" = String.eqb s "".
Proof. now destruct s. Qed.

(** X17.  The category of a note is one of four, whatever text the backend
    stored, and the letter case of that text plays no part in it; a note
    without a category is a general one. *)
Theorem category_ignores_case (c : string) :
  ascii_text c ->
  (exists category, NotesPage.map_category (JS.Str c) = Some category /\
                    category ∈ note_categories) /\
  NotesPage.map_category (JS.Str (JS.toLowerCase c)) = NotesPage.map_category (JS.Str c) /\
  NotesPage.map_category JS.Undefined = Some "general" /\
  NotesPage.map_category JS.Null = Some "general".
Proof.
  intros _. split; [| split; [| split; reflexivity]].
  - unfold NotesPage.map_category, note_categories.
    destruct (JS.truthy _); [| eexists; split; [reflexivity |];
                               apply list_elem_of_In; simpl; auto].
    repeat match goal with
           | |- context [if ?b then _ else _] => destruct b
           end; eexists; (split; [reflexivity |]); apply list_elem_of_In; simpl; auto.
  - unfold NotesPage.map_category. cbn [JS.truthy].
    now rewrite toLowerCase_empty, toUpperCase_toLowerCase.
Qed.

End Categories.

(** Three spellings of one category. *)
Lemma category_ignores_case_witness :
  ascii_text "Budget Decision" /\
  NotesPage.map_category (JS.Str "Budget Decision") = Some "decision" /\
  NotesPage.map_category (JS.Str (JS.toLowerCase "Budget Decision")) =
  NotesPage.map_category (JS.Str "Budget Decision").
Proof.
  assert (H : ascii_text "Budget Decision") by (repeat constructor).
  split; [exact H |]. split; [reflexivity |].
  exact (proj1 (proj2 (category_ignores_case "Budget Decision" H))).
Defined.

(** ** The cells of the CSV export *)

Section Csv.

Import ExportLib.

Lemma double_quotes_length s : String.length s <= String.length (double_quotes s).
Proof.
  induction s as [| c s IH]; simpl; [lia |].
  destruct (Ascii.eqb c double_quote); simpl; lia.
Qed.

Lemma double_quotes_fixed s : double_quotes s = s <-> has_char double_quote s = false.
Proof.
  induction s as [| c s IH]; simpl; [done |].
  destruct (Ascii.eqb_spec c double_quote) as [-> | Hc]; simpl.
  - split; [| discriminate]. intros [= H].
    pose proof (double_quotes_length s) as Hl. rewrite <- H in Hl at 1. simpl in Hl. lia.
  - rewrite <- IH. split; [now intros [= ?] | now intros ->].
Qed.

Lemma double_quotes_inj a b : double_quotes a = double_quotes b -> a = b.
Proof.
  revert b. induction a as [| c a IH]; intros [| d b]; simpl.
  - done.
  - destruct (Ascii.eqb d double_quote); discriminate.
  - destruct (Ascii.eqb c double_quote); discriminate.
  - destruct (Ascii.eqb_spec c double_quote) as [-> | Hc],
             (Ascii.eqb_spec d double_quote) as [-> | Hd].
    + intros [= H]. now rewrite (IH b H).
    + intros [= H _]. congruence.
    + intros [= H _]. congruence.
    + intros [= -> H]. now rewrite (IH b H).
Qed.

Lemma has_char_double_quotes c s : has_char c (double_quotes s) = has_char c s.
Proof.
  induction s as [| d s IH]; [done |]. cbn [double_quotes].
  destruct (Ascii.eqb_spec d double_quote) as [-> | Hd]; cbn [has_char]; rewrite IH.
  - now destruct (Ascii.eqb double_quote c).
  - done.
Qed.

Lemma has_char_append c s t : has_char c (s +:+ t) = has_char c s || has_char c t.
Proof.
  induction s as [| d s IH]; [done |].
  change (String d s +:+ t) with (String d (s +:+ t)). simpl.
  rewrite IH. now destruct (Ascii.eqb d c).
Qed.

Lemma append_length s t : String.length (s +:+ t) = String.length s + String.length t.
Proof.
  induction s as [| d s IH]; [done |].
  change (String d s +:+ t) with (String d (s +:+ t)). simpl. now rewrite IH.
Qed.

Lemma append_inv_tail s s' t : s +:+ t = s' +:+ t -> s = s'.
Proof.
  revert s'. induction s as [| c s IH]; intros [| c' s'].
  - done.
  - intros H. apply (f_equal String.length) in H. rewrite !append_length in H.
    simpl in H. lia.
  - intros H. apply (f_equal String.length) in H. rewrite !append_length in H.
    simpl in H. lia.
  - change (String c s +:+ t) with (String c (s +:+ t)).
    change (String c' s' +:+ t) with (String c' (s' +:+ t)).
    intros [= -> H]. now rewrite (IH s' H).
Qed.

Lemma csv_cell_separators v :
  has_char "," (csv_cell v) || has_char line_feed (csv_cell v) =
  has_char "," v || has_char line_feed v.
Proof.
  unfold csv_cell. rewrite !has_char_double_quotes.
  destruct (has_char "," v || has_char line_feed v) eqn:Hs; cbn zeta.
  - cbn [has_char]. rewrite !has_char_append, !has_char_double_quotes.
    apply orb_true_iff in Hs as [-> | ->]; simpl;
      rewrite ?orb_true_r; reflexivity.
  - now rewrite !has_char_double_quotes.
Qed.

(** X18.  The CSV export keeps the cells apart: two different texts never
    give the same cell, and a text is written as it is exactly when it holds
    no double quote, no comma and no line feed. *)
Theorem csv_cell_is_faithful :
  (forall a b, csv_cell a = csv_cell b -> a = b) /\
  (forall v, csv_cell v = v <->
             has_char double_quote v = false /\
             has_char "," v = false /\ has_char line_feed v = false).
Proof.
  split.
  - intros a b H.
    pose proof (csv_cell_separators a) as Ha. pose proof (csv_cell_separators b) as Hb.
    rewrite H, Hb in Ha. revert H. unfold csv_cell.
    rewrite !has_char_double_quotes, <- Ha.
    destruct (has_char "," b || has_char line_feed b); cbn zeta.
    + intros [= H]. now apply append_inv_tail, double_quotes_inj in H.
    + apply double_quotes_inj.
  - intros v. unfold csv_cell. rewrite !has_char_double_quotes.
    destruct (has_char "," v) eqn:Hc; [| destruct (has_char line_feed v) eqn:Hl]; cbn [orb].
    + split; [| intros (_ & ? & _); discriminate].
      intros H. apply (f_equal String.length) in H. simpl in H.
      rewrite append_length in H. pose proof (double_quotes_length v). simpl in H. lia.
    + split; [| intros (_ & _ & ?); discriminate].
      intros H. apply (f_equal String.length) in H. simpl in H.
      rewrite append_length in H. pose proof (double_quotes_length v). simpl in H. lia.
    + rewrite double_quotes_fixed. tauto.
Qed.

End Csv.

(** ** The password forms *)

Section Passwords.

Import PasswordRules.

Lemma password_checks password confirmPassword :
  isPasswordValid password = true /\ passwordsMatch password confirmPassword = true <->
  (passwordLength password <? 8)%Z = false /\
  (128 <? passwordLength password)%Z = false /\
  negb (bool_decide (password = confirmPassword)) = false.
Proof.
  unfold isPasswordValid, passwordsMatch, hasMinLength, hasMaxLength, passwordLength.
  rewrite !andb_true_iff, negb_false_iff, !bool_decide_eq_true.
  rewrite !Z.leb_le, !Z.ltb_lt, !Z.ltb_ge. split.
  - intros ((? & ?) & (? & ?)). auto.
  - intros (? & ? & <-). repeat split; auto; lia.
Qed.

(** X19.  [handleSubmit] of the signup page, for a submission that reaches
    it (the browser checks the required inputs and the form of the e-mail
    address before it lets one through), sends the registration exactly when
    the name is not blank and the conditions of the submit button hold: a
    password of 8 to 128 code units, repeated alike.  The handler asks for
    nothing else: upper case, lower case and digits, which the strength meter
    counts, play no part.  The request carries what was typed; a refusal
    clears the error, sets one message and shows it. *)
Theorem signup_request_iff
    (register : SignupPage.AuthResult + JS.val) (authUrl : option JS.val)
    (formData : SignupPage.FormData) :
  let effs := SignupPage.handleSubmit register authUrl formData in
  let sent := SignupPage.api_emailRegister (SignupPage.email formData)
                (SignupPage.password formData) (SignupPage.name formData) in
  (sent ∈ effs <->
   ~ DashboardPage.blank (SignupPage.name formData) /\
   isPasswordValid (SignupPage.password formData) = true /\
   passwordsMatch (SignupPage.password formData)
                  (SignupPage.confirmPassword formData) = true) /\
  (forall e, e ∈ effs -> SignupPage.is_register e = true -> e = sent) /\
  (sent ∉ effs ->
   exists msg, effs = SignupPage.setError (JS.Str "") :: SignupPage.refuse msg).
Proof.
  intros effs sent. subst effs sent. unfold SignupPage.handleSubmit.
  rewrite password_checks, <- trim_blank.
  destruct (DashboardPage.is_empty _); [| destruct (_ <? 8)%Z;
    [| destruct (128 <? _)%Z; [| destruct (negb _)]]].
  1-4: split; [split | split].
  all: try (intros (? & ? & ? & ?); congruence).
  all: try (intros H; apply list_elem_of_In in H; simpl in H; intuition discriminate).
  all: try (intros e H He; apply list_elem_of_In in H; simpl in H;
            intuition (subst; discriminate)).
  all: try (intros _; eexists; reflexivity).

  split; [| split].
  - split; [intros _; repeat split; congruence |].
    intros _. apply list_elem_of_In. simpl. auto.
  - intros e H He. apply list_elem_of_In in H.
    destruct register as [result | detail]; simpl in H.
    + unfold SignupPage.redirectAfterLogin in H.
      destruct (JS.not _), authUrl; simpl in H;
        intuition (subst; try discriminate; reflexivity).
    + intuition (subst; try discriminate; reflexivity).
  - intros H. exfalso. apply H. apply list_elem_of_In. simpl. auto.
Qed.

(** X20.  [handleSubmit] of the reset-password page sends the request exactly
    when the conditions of the submit button hold, and the request carries
    the typed password and the token the page holds, which the handler does
    not look at.  The page renders the form, the only caller of the handler,
    only while it holds a token: a link with a token makes the page hold that
    token and render the form; a link without one is reported as invalid and
    no form is rendered. *)
Theorem reset_request_iff
    (tokenFromUrl : option string) (reset : unit + JS.val) (token : string)
    (password confirmPassword : ustring) :
  let effs := ResetPasswordPage.handleSubmit reset token password confirmPassword in
  let held := (ResetPasswordPage.read_token tokenFromUrl).1 in
  (ResetPasswordPage.api_resetPassword token password ∈ effs <->
   isPasswordValid password = true /\ passwordsMatch password confirmPassword = true) /\
  (forall t p, ResetPasswordPage.api_resetPassword t p ∈ effs -> t = token /\ p = password) /\
  (ResetPasswordPage.form_rendered held false = true <->
   exists t, tokenFromUrl = Some t /\ t <> "" /\ held = t) /\
  (ResetPasswordPage.form_rendered held false = false <->
   ResetPasswordPage.toast_error (JS.Str "Invalid reset link")
     ∈ (ResetPasswordPage.read_token tokenFromUrl).2) /\
  (forall held', ResetPasswordPage.form_rendered held' true = false).
Proof.
  intros effs held. subst effs held.
  rewrite password_checks.
  split; [| split; [| split; [| split]]].
  - unfold ResetPasswordPage.handleSubmit.
    destruct (_ <? 8)%Z; [| destruct (128 <? _)%Z; [| destruct (negb _)]].
    1-3: split; [| intros (? & ? & ?); congruence];
      intros H; apply list_elem_of_In in H; simpl in H; intuition discriminate.
    split; [auto |]. intros _. apply list_elem_of_In. simpl. auto.
  - intros t p H.
    unfold ResetPasswordPage.handleSubmit in H.
    destruct (_ <? 8)%Z; [| destruct (128 <? _)%Z; [| destruct (negb _)]];
      apply list_elem_of_In in H; simpl in H.
    1-3: intuition discriminate.
    destruct reset; simpl in H; intuition (try discriminate; congruence).
  - unfold ResetPasswordPage.read_token, ResetPasswordPage.form_rendered.
    destruct tokenFromUrl as [u|]; [destruct (String.eqb_spec u "") as [-> | Hu] |];
      cbn [negb fst andb].
    + split; [discriminate | intros (t & [= <-] & Ht & _); contradiction].
    + destruct (String.eqb_spec u ""); [contradiction |]. split; [eauto | reflexivity].
    + split; [discriminate | intros (t & ? & _); discriminate].
  - unfold ResetPasswordPage.read_token, ResetPasswordPage.form_rendered.
    destruct tokenFromUrl as [u|]; [destruct (String.eqb_spec u "") as [-> | Hu] |];
      cbn [negb fst snd andb].
    + split; [intros _ | reflexivity]. apply list_elem_of_In. simpl. auto.
    + destruct (String.eqb_spec u ""); [contradiction |]. split; [discriminate |].
      intros H. apply list_elem_of_In in H. simpl in H. intuition discriminate.
    + split; [intros _ | reflexivity]. apply list_elem_of_In. simpl. auto.
  - reflexivity.
Qed.

End Passwords.
